(** * Durandal's dialog plugin (src/plugins/js/dialog.js)

    A shallow embedding of the dialog manager: the context registry, the
    open-dialog counter, the z-index counter, the per-owner session
    (the [__dialog__] property) and the asynchronous handshake of [show]
    and [close] with the activator.

    Conventions of the embedding.
    - JavaScript values are the type [value]; objects are references
      (natural numbers) into explicit stores, so two names may alias one
      object.
    - A JavaScript string is kept as the bytes of its UTF-8 form; what
      the source does with a string ([substr], [toUpperCase], [+]) is
      done on its UTF-16 code units.
    - A JavaScript number holding an integer is a [Z]; [++] and [--] are
      followed by the rounding of an IEEE double ([round_double]), which
      is the identity up to 2^53 in magnitude.
    - Asynchronous hand-offs ([system.acquire], [activateItem],
      [deactivateItem]) park a continuation in [tasks]; the environment
      completes a parked continuation with an event.  A callback that
      throws stops where it throws: the effects before the throw stay.
    - What the manager asks of its collaborators (the context's hooks,
      the compositor, [resolve]) is recorded in [effects]; the document
      itself is not modelled, nor are [MessageBox], [showMessage] and
      [install], which only call [show] and [close]. *)

From Stdlib Require Import ZArith Lia Bool Ascii String List.
From stdpp Require Import base option list gmap strings pretty.

Local Open Scope Z_scope.

(** ** Values *)

Inductive value :=
| VUndefined
| VNull
| VBool (b : bool)
| VNum (n : Z)
| VStr (s : string)
| VObj (o : nat).

Global Instance value_eq_dec : EqDecision value.
Proof. solve_decision. Defined.

(** ToBoolean: what [if (v)] and [v || w] test. *)
Definition truthy (v : value) : bool :=
  match v with
  | VUndefined | VNull => false
  | VBool b => b
  | VNum n => negb (n =? 0)
  | VStr s => negb (String.eqb s EmptyString)
  | VObj _ => true
  end.

(** [a || b] *)
Definition js_or (a b : value) : value := if truthy a then a else b.

(** [system.isString] *)
Definition isString (v : value) : bool :=
  match v with VStr _ => true | _ => false end.

(** The property key a value denotes in [contexts[v]] (ToString; integers
    below 10^21 in magnitude print as decimal numerals, plain objects as
    [[object Object]]). *)
Definition to_key (v : value) : string :=
  match v with
  | VUndefined => "undefined"
  | VNull => "null"
  | VBool true => "true"
  | VBool false => "false"
  | VNum n => pretty n
  | VStr s => s
  | VObj _ => "[object Object]"
  end.

(** ** Numbers *)

(** The exponent of the unit in the last place of the double nearest to
    the integer [z]: doubles carry 53 significant bits. *)
Definition ulp_exp (z : Z) : Z := Z.max 0 (Z.log2 (Z.abs z) - 52).

(** Round-to-nearest, ties-to-even, of an integer to a double. *)
Definition round_double (z : Z) : Z :=
  let u := 2 ^ ulp_exp z in
  let q := z / u in
  let r := z mod u in
  if 2 * r <? u then q * u
  else if u <? 2 * r then (q + 1) * u
  else if Z.even q then q * u else (q + 1) * u.

(** [++x] and [--x] on a number. *)
Definition js_incr (z : Z) : Z := round_double (z + 1).
Definition js_decr (z : Z) : Z := round_double (z - 1).

Definition max_exact : Z := 2 ^ 53.

(** ** Strings *)

(** A JavaScript string is a sequence of UTF-16 code units: [substr]
    counts code units, and [toUpperCase] maps the code points they
    spell.  The model keeps a string as the bytes of its UTF-8 form (a
    surrogate that stands alone as the three bytes its value gives);
    [units] reads the code units of such a string and [of_units] writes
    them.  A byte that is no part of UTF-8 reads as U+FFFD. *)

(** U+FFFD, the replacement character. *)
Definition replacement : N := 65533.

(** The two halves of a surrogate pair. *)
Definition high_surrogate (u : N) : bool := (55296 <=? u)%N && (u <? 56320)%N.
Definition low_surrogate (u : N) : bool := (56320 <=? u)%N && (u <? 57344)%N.

(** The code units of a code point. *)
Definition units_of_code_point (cp : N) : list N :=
  if (cp <? 65536)%N then [cp]
  else if (cp <? 1114112)%N
       then [55296 + (cp - 65536) / 1024; 56320 + (cp - 65536) mod 1024]%N
       else [replacement].

(** The code points of a sequence of code units: a high surrogate and
    the low surrogate after it spell one code point. *)
Fixpoint code_points (l : list N) : list N :=
  match l with
  | [] => []
  | u :: rest =>
    match rest with
    | v :: rest' =>
      if high_surrogate u && low_surrogate v
      then (65536 + (u - 55296) * 1024 + (v - 56320))%N :: code_points rest'
      else u :: code_points rest
    | [] => [u]
    end
  end.

(** What a byte starts: a code unit of its own, or a sequence with so
    many bytes to follow after the next. *)
Definition lead (b : N) : list N * option (N * nat) :=
  if (b <? 128)%N then ([b], None)
  else if (192 <=? b)%N && (b <? 224)%N then ([], Some (b - 192, 0%nat))%N
  else if (224 <=? b)%N && (b <? 240)%N then ([], Some (b - 224, 1%nat))%N
  else if (240 <=? b)%N && (b <? 248)%N then ([], Some (b - 240, 2%nat))%N
  else ([replacement], None).

(** The code units of the bytes [s].  Inside a sequence, [pending] holds
    the bits gathered and how many bytes follow the next one. *)
Fixpoint units_from (pending : option (N * nat)) (s : string) : list N :=
  match s with
  | EmptyString =>
    match pending with
    | Some _ => [replacement]
    | None => []
    end
  | String c rest =>
    let b := N_of_ascii c in
    match pending with
    | Some (acc, more) =>
      if (128 <=? b)%N && (b <? 192)%N then
        let acc := (acc * 64 + (b - 128))%N in
        match more with
        | O => units_of_code_point acc ++ units_from None rest
        | S more' => units_from (Some (acc, more')) rest
        end
      else replacement :: (lead b).1 ++ units_from (lead b).2 rest
    | None => (lead b).1 ++ units_from (lead b).2 rest
    end
  end.

(** The code units of a string. *)
Definition units : string → list N := units_from None.

(** The bytes of a code point in UTF-8. *)
Definition utf8 (cp : N) : list N :=
  if (cp <? 128)%N then [cp]
  else if (cp <? 2048)%N then [192 + cp / 64; 128 + cp mod 64]%N
  else if (cp <? 65536)%N
       then [224 + cp / 4096; 128 + (cp / 64) mod 64; 128 + cp mod 64]%N
       else [240 + (cp / 262144) mod 8; 128 + (cp / 4096) mod 64;
             128 + (cp / 64) mod 64; 128 + cp mod 64]%N.

(** The string of a list of bytes. *)
Definition string_of_bytes (l : list N) : string :=
  foldr (λ b s, String (ascii_of_N b) s) EmptyString l.

(** The string with the code units [l]. *)
Definition of_units (l : list N) : string :=
  string_of_bytes (flat_map utf8 (code_points l)).

(** The simple upper-case mappings of the Unicode Character Database
    (UnicodeData.txt, version 14.0), in runs [(first, last, step, to)]:
    [to] is the upper case of [first], and every [step]-th code point up
    to [last] has its upper case as far from [to] as it is from
    [first]. *)
Definition upper_runs : list (N * N * N * N) :=
  [
   (97, 122, 1, 65); (181, 181, 1, 924); (224, 246, 1, 192);
   (248, 254, 1, 216); (255, 255, 1, 376); (257, 303, 2, 256);
   (305, 305, 1, 73); (307, 311, 2, 306); (314, 328, 2, 313);
   (331, 375, 2, 330); (378, 382, 2, 377); (383, 383, 1, 83);
   (384, 384, 1, 579); (387, 389, 2, 386); (392, 392, 1, 391);
   (396, 396, 1, 395); (402, 402, 1, 401); (405, 405, 1, 502);
   (409, 409, 1, 408); (410, 410, 1, 573); (414, 414, 1, 544);
   (417, 421, 2, 416); (424, 424, 1, 423); (429, 429, 1, 428);
   (432, 432, 1, 431); (436, 438, 2, 435); (441, 441, 1, 440);
   (445, 445, 1, 444); (447, 447, 1, 503); (453, 453, 1, 452);
   (454, 454, 1, 452); (456, 456, 1, 455); (457, 457, 1, 455);
   (459, 459, 1, 458); (460, 460, 1, 458); (462, 476, 2, 461);
   (477, 477, 1, 398); (479, 495, 2, 478); (498, 498, 1, 497);
   (499, 499, 1, 497); (501, 501, 1, 500); (505, 543, 2, 504);
   (547, 563, 2, 546); (572, 572, 1, 571); (575, 576, 1, 11390);
   (578, 578, 1, 577); (583, 591, 2, 582); (592, 592, 1, 11375);
   (593, 593, 1, 11373); (594, 594, 1, 11376); (595, 595, 1, 385);
   (596, 596, 1, 390); (598, 599, 1, 393); (601, 601, 1, 399);
   (603, 603, 1, 400); (604, 604, 1, 42923); (608, 608, 1, 403);
   (609, 609, 1, 42924); (611, 611, 1, 404); (613, 613, 1, 42893);
   (614, 614, 1, 42922); (616, 616, 1, 407); (617, 617, 1, 406);
   (618, 618, 1, 42926); (619, 619, 1, 11362); (620, 620, 1, 42925);
   (623, 623, 1, 412); (625, 625, 1, 11374); (626, 626, 1, 413);
   (629, 629, 1, 415); (637, 637, 1, 11364); (640, 640, 1, 422);
   (642, 642, 1, 42949); (643, 643, 1, 425); (647, 647, 1, 42929);
   (648, 648, 1, 430); (649, 649, 1, 580); (650, 651, 1, 433);
   (652, 652, 1, 581); (658, 658, 1, 439); (669, 669, 1, 42930);
   (670, 670, 1, 42928); (837, 837, 1, 921); (881, 883, 2, 880);
   (887, 887, 1, 886); (891, 893, 1, 1021); (940, 940, 1, 902);
   (941, 943, 1, 904); (945, 961, 1, 913); (962, 962, 1, 931);
   (963, 971, 1, 931); (972, 972, 1, 908); (973, 974, 1, 910);
   (976, 976, 1, 914); (977, 977, 1, 920); (981, 981, 1, 934);
   (982, 982, 1, 928); (983, 983, 1, 975); (985, 1007, 2, 984);
   (1008, 1008, 1, 922); (1009, 1009, 1, 929); (1010, 1010, 1, 1017);
   (1011, 1011, 1, 895); (1013, 1013, 1, 917); (1016, 1016, 1, 1015);
   (1019, 1019, 1, 1018); (1072, 1103, 1, 1040); (1104, 1119, 1, 1024);
   (1121, 1153, 2, 1120); (1163, 1215, 2, 1162); (1218, 1230, 2, 1217);
   (1231, 1231, 1, 1216); (1233, 1327, 2, 1232); (1377, 1414, 1, 1329);
   (4304, 4346, 1, 7312); (4349, 4351, 1, 7357); (5112, 5117, 1, 5104);
   (7296, 7296, 1, 1042); (7297, 7297, 1, 1044); (7298, 7298, 1, 1054);
   (7299, 7300, 1, 1057); (7301, 7301, 1, 1058); (7302, 7302, 1, 1066);
   (7303, 7303, 1, 1122); (7304, 7304, 1, 42570); (7545, 7545, 1, 42877);
   (7549, 7549, 1, 11363); (7566, 7566, 1, 42950); (7681, 7829, 2, 7680);
   (7835, 7835, 1, 7776); (7841, 7935, 2, 7840); (7936, 7943, 1, 7944);
   (7952, 7957, 1, 7960); (7968, 7975, 1, 7976); (7984, 7991, 1, 7992);
   (8000, 8005, 1, 8008); (8017, 8023, 2, 8025); (8032, 8039, 1, 8040);
   (8048, 8049, 1, 8122); (8050, 8053, 1, 8136); (8054, 8055, 1, 8154);
   (8056, 8057, 1, 8184); (8058, 8059, 1, 8170); (8060, 8061, 1, 8186);
   (8112, 8113, 1, 8120); (8126, 8126, 1, 921); (8144, 8145, 1, 8152);
   (8160, 8161, 1, 8168); (8165, 8165, 1, 8172); (8526, 8526, 1, 8498);
   (8560, 8575, 1, 8544); (8580, 8580, 1, 8579); (9424, 9449, 1, 9398);
   (11312, 11359, 1, 11264); (11361, 11361, 1, 11360); (11365, 11365, 1, 570);
   (11366, 11366, 1, 574); (11368, 11372, 2, 11367); (11379, 11379, 1, 11378);
   (11382, 11382, 1, 11381); (11393, 11491, 2, 11392); (11500, 11502, 2, 11499);
   (11507, 11507, 1, 11506); (11520, 11557, 1, 4256); (11559, 11559, 1, 4295);
   (11565, 11565, 1, 4301); (42561, 42605, 2, 42560); (42625, 42651, 2, 42624);
   (42787, 42799, 2, 42786); (42803, 42863, 2, 42802); (42874, 42876, 2, 42873);
   (42879, 42887, 2, 42878); (42892, 42892, 1, 42891); (42897, 42899, 2, 42896);
   (42900, 42900, 1, 42948); (42903, 42921, 2, 42902); (42933, 42947, 2, 42932);
   (42952, 42954, 2, 42951); (42961, 42961, 1, 42960); (42967, 42969, 2, 42966);
   (42998, 42998, 1, 42997); (43859, 43859, 1, 42931); (43888, 43967, 1, 5024);
   (65345, 65370, 1, 65313); (66600, 66639, 1, 66560); (66776, 66811, 1, 66736);
   (66967, 67003, 2, 66928); (66968, 66977, 1, 66929); (66980, 66993, 1, 66941);
   (66996, 67001, 1, 66957); (67004, 67004, 1, 66965); (68800, 68850, 1, 68736);
   (71872, 71903, 1, 71840); (93792, 93823, 1, 93760); (125218, 125251, 1, 125184)
  ]%N.

(** The code points whose upper case is more than one code point
    (SpecialCasing.txt, the mappings without a condition). *)
Definition upper_special : list (N * list N) :=
  [
   (223, [83; 83]); (329, [700; 78]); (496, [74; 780]);
   (912, [921; 776; 769]); (944, [933; 776; 769]); (1415, [1333; 1362]);
   (7830, [72; 817]); (7831, [84; 776]); (7832, [87; 778]);
   (7833, [89; 778]); (7834, [65; 702]); (8016, [933; 787]);
   (8018, [933; 787; 768]); (8020, [933; 787; 769]); (8022, [933; 787; 834]);
   (8064, [7944; 921]); (8065, [7945; 921]); (8066, [7946; 921]);
   (8067, [7947; 921]); (8068, [7948; 921]); (8069, [7949; 921]);
   (8070, [7950; 921]); (8071, [7951; 921]); (8072, [7944; 921]);
   (8073, [7945; 921]); (8074, [7946; 921]); (8075, [7947; 921]);
   (8076, [7948; 921]); (8077, [7949; 921]); (8078, [7950; 921]);
   (8079, [7951; 921]); (8080, [7976; 921]); (8081, [7977; 921]);
   (8082, [7978; 921]); (8083, [7979; 921]); (8084, [7980; 921]);
   (8085, [7981; 921]); (8086, [7982; 921]); (8087, [7983; 921]);
   (8088, [7976; 921]); (8089, [7977; 921]); (8090, [7978; 921]);
   (8091, [7979; 921]); (8092, [7980; 921]); (8093, [7981; 921]);
   (8094, [7982; 921]); (8095, [7983; 921]); (8096, [8040; 921]);
   (8097, [8041; 921]); (8098, [8042; 921]); (8099, [8043; 921]);
   (8100, [8044; 921]); (8101, [8045; 921]); (8102, [8046; 921]);
   (8103, [8047; 921]); (8104, [8040; 921]); (8105, [8041; 921]);
   (8106, [8042; 921]); (8107, [8043; 921]); (8108, [8044; 921]);
   (8109, [8045; 921]); (8110, [8046; 921]); (8111, [8047; 921]);
   (8114, [8122; 921]); (8115, [913; 921]); (8116, [902; 921]);
   (8118, [913; 834]); (8119, [913; 834; 921]); (8124, [913; 921]);
   (8130, [8138; 921]); (8131, [919; 921]); (8132, [905; 921]);
   (8134, [919; 834]); (8135, [919; 834; 921]); (8140, [919; 921]);
   (8146, [921; 776; 768]); (8147, [921; 776; 769]); (8150, [921; 834]);
   (8151, [921; 776; 834]); (8162, [933; 776; 768]); (8163, [933; 776; 769]);
   (8164, [929; 787]); (8166, [933; 834]); (8167, [933; 776; 834]);
   (8178, [8186; 921]); (8179, [937; 921]); (8180, [911; 921]);
   (8182, [937; 834]); (8183, [937; 834; 921]); (8188, [937; 921]);
   (64256, [70; 70]); (64257, [70; 73]); (64258, [70; 76]);
   (64259, [70; 70; 73]); (64260, [70; 70; 76]); (64261, [83; 84]);
   (64262, [83; 84]); (64275, [1348; 1350]); (64276, [1348; 1333]);
   (64277, [1348; 1339]); (64278, [1358; 1350]); (64279, [1348; 1341])
  ]%N.

(** The upper case of a code point (Unicode default case conversion). *)
Definition upper_code_point (cp : N) : list N :=
  match List.find (λ p, (p.1 =? cp)%N) upper_special with
  | Some p => p.2
  | None =>
    match List.find (λ r, (r.1.1.1 <=? cp)%N && (cp <=? r.1.1.2)%N &&
                          ((cp - r.1.1.1) mod r.1.2 =? 0)%N) upper_runs with
    | Some r => [r.2 + (cp - r.1.1.1)]%N
    | None => [cp]
    end
  end.

(** [s.toUpperCase()] *)
Definition toUpperCase (s : list N) : list N :=
  flat_map units_of_code_point (flat_map upper_code_point (code_points s)).

(** [s.substr(start, len)] and [s.substr(start)] for [start] within the
    natural numbers. *)
Definition substr (s : list N) (start len : nat) : list N :=
  take len (drop start s).
Definition substr_from (s : list N) (start : nat) : list N :=
  drop start s.

(** [['show' + name.substr(0, 1).toUpperCase() + name.substr(1)]] *)
Definition helperName (name : string) : string :=
  of_units (units "show" ++ toUpperCase (substr (units name) 0 1)
              ++ substr_from (units name) 1).

(** ** Deferreds *)

(** Modelled from the spec: [system.defer] (durandal/system, a wrapper
    of jQuery's Deferred) is not part of the plugin.  A deferred is
    pending until it is settled; settling a settled deferred does
    nothing (the single-resolution guarantee of section 9). *)
Inductive deferred :=
| Pending
| Resolved (args : list value)
| Rejected (err : value).

Global Instance deferred_eq_dec : EqDecision deferred.
Proof. solve_decision. Defined.

(** [dfd.resolve.apply(dfd, args)] *)
Definition resolve (args : list value) (d : deferred) : deferred :=
  match d with
  | Pending => Resolved args
  | _ => d
  end.

(** ** The data model *)

(** A dialog context object.  [dc_name] is its [name] property;
    [dc_builtin_host] tells whether its [addHost] and [removeHost] are the
    functions of the built-in context at the end of the file (the hooks of
    any other context are application code: their calls are recorded, and
    they are taken not to call back into the manager); the last two
    fields tell whether the optional hooks are present. *)
Record DialogContext := mkContext {
  dc_name : value;
  dc_builtin_host : bool;
  dc_attached : bool;
  dc_compositionComplete : bool
}.

(** The settings object handed to the compositor. *)
Record CompositionSettings := mkSettings {
  model : value;
  activate : bool;
  cs_attached : bool;
  cs_compositionComplete : bool
}.

(** The session object stored in [instance.__dialog__].  [promise] is the
    deferred captured by its [close] function; [host] and [blockout] are
    the stacking values of the elements the built-in [addHost] creates. *)
Record Dialog := mkDialog {
  owner : value;
  context : option nat;
  activator : nat;
  promise : nat;
  settings : option CompositionSettings;
  host : option Z;
  blockout : option Z
}.

(** A continuation parked on an asynchronous hand-off. *)
Inductive continuation :=
| AwaitAcquire (dfd : nat) (moduleId : string) (activationData : value)
    (dialogContext : option nat)
| AwaitActivate (dfd : nat) (instance activationData : value)
    (dialogContext : option nat) (dialogActivator : nat)
| AwaitDeactivate (theDialog : nat) (args : list value)
| Done.

(** What the manager does to its collaborators, in order. *)
Inductive effect :=
| AddHost (theDialog : nat)
| RemoveHost (theDialog : nat)
| Compose (theDialog : nat)
| LockScroll
| UnlockScroll
| ResolveCall (dfd : nat) (args : list value)
| Throw.

Global Instance effect_eq_dec : EqDecision effect.
Proof. solve_decision. Defined.

(** The module's variables and the stores they point into.
    [helpers] holds the functions [addContext] assigns to properties of
    the manager (property name to captured context name); [dialog_prop]
    is the [__dialog__] property of the application's objects. *)
Record state := mkState {
  contexts : gmap string nat;
  dialogCount : Z;
  currentZIndex : Z;
  helpers : gmap string string;
  ctx_store : list DialogContext;
  dialog_prop : gmap nat nat;
  sessions : list Dialog;
  deferreds : list deferred;
  tasks : list continuation;
  activators : nat;
  effects : list effect
}.

Definition set_contexts (f : gmap string nat → gmap string nat) (st : state) : state :=
  mkState (f (contexts st)) (dialogCount st) (currentZIndex st) (helpers st)
    (ctx_store st) (dialog_prop st) (sessions st) (deferreds st) (tasks st)
    (activators st) (effects st).
Definition set_dialogCount (f : Z → Z) (st : state) : state :=
  mkState (contexts st) (f (dialogCount st)) (currentZIndex st) (helpers st)
    (ctx_store st) (dialog_prop st) (sessions st) (deferreds st) (tasks st)
    (activators st) (effects st).
Definition set_currentZIndex (f : Z → Z) (st : state) : state :=
  mkState (contexts st) (dialogCount st) (f (currentZIndex st)) (helpers st)
    (ctx_store st) (dialog_prop st) (sessions st) (deferreds st) (tasks st)
    (activators st) (effects st).
Definition set_helpers (f : gmap string string → gmap string string) (st : state) : state :=
  mkState (contexts st) (dialogCount st) (currentZIndex st) (f (helpers st))
    (ctx_store st) (dialog_prop st) (sessions st) (deferreds st) (tasks st)
    (activators st) (effects st).
Definition set_ctx_store (f : list DialogContext → list DialogContext) (st : state) : state :=
  mkState (contexts st) (dialogCount st) (currentZIndex st) (helpers st)
    (f (ctx_store st)) (dialog_prop st) (sessions st) (deferreds st) (tasks st)
    (activators st) (effects st).
Definition set_dialog_prop (f : gmap nat nat → gmap nat nat) (st : state) : state :=
  mkState (contexts st) (dialogCount st) (currentZIndex st) (helpers st)
    (ctx_store st) (f (dialog_prop st)) (sessions st) (deferreds st) (tasks st)
    (activators st) (effects st).
Definition set_sessions (f : list Dialog → list Dialog) (st : state) : state :=
  mkState (contexts st) (dialogCount st) (currentZIndex st) (helpers st)
    (ctx_store st) (dialog_prop st) (f (sessions st)) (deferreds st) (tasks st)
    (activators st) (effects st).
Definition set_deferreds (f : list deferred → list deferred) (st : state) : state :=
  mkState (contexts st) (dialogCount st) (currentZIndex st) (helpers st)
    (ctx_store st) (dialog_prop st) (sessions st) (f (deferreds st)) (tasks st)
    (activators st) (effects st).
Definition set_tasks (f : list continuation → list continuation) (st : state) : state :=
  mkState (contexts st) (dialogCount st) (currentZIndex st) (helpers st)
    (ctx_store st) (dialog_prop st) (sessions st) (deferreds st) (f (tasks st))
    (activators st) (effects st).
Definition set_activators (f : nat → nat) (st : state) : state :=
  mkState (contexts st) (dialogCount st) (currentZIndex st) (helpers st)
    (ctx_store st) (dialog_prop st) (sessions st) (deferreds st) (tasks st)
    (f (activators st)) (effects st).
Definition set_effects (f : list effect → list effect) (st : state) : state :=
  mkState (contexts st) (dialogCount st) (currentZIndex st) (helpers st)
    (ctx_store st) (dialog_prop st) (sessions st) (deferreds st) (tasks st)
    (activators st) (f (effects st)).

(** Small steps shared by the operations. *)
Definition emit (e : effect) : state → state := set_effects (λ l, l ++ [e]).
Definition park (k : continuation) : state → state := set_tasks (λ l, l ++ [k]).
Definition finish (task : nat) : state → state := set_tasks (<[task := Done]>).
Definition settle (dfd : nat) (args : list value) (st : state) : state :=
  emit (ResolveCall dfd args)
    (set_deferreds (alter (resolve args) dfd) st).

(** ** The manager *)

(** [getNextZIndex: function () { return ++this.currentZIndex; }] *)
Definition getNextZIndex (st : state) : Z * state :=
  let z := js_incr (currentZIndex st) in
  (z, set_currentZIndex (λ _, z) st).

(** [isOpen: function () { return dialogCount > 0; }] *)
Definition isOpen (st : state) : bool := 0 <? dialogCount st.

(** [getContext: function (name) { return contexts[name || 'default']; }]
    The result is the reference stored under the key, [None] for
    [undefined]. *)
Definition getContext (name : value) (st : state) : option nat :=
  contexts st !! to_key (js_or name (VStr "default")).

(** The object a context reference points to. *)
Definition deref (st : state) (dialogContext : option nat) : option DialogContext :=
  c ← dialogContext; ctx_store st !! c.

(** [addContext], lines 137-145: the passed object's [name] is
    overwritten, the reference is stored under [name], and a function
    that calls [this.show(obj, activationData, name)] is assigned to the
    property [helperName name] of the manager. *)
Definition addContext (name : string) (dialogContext : nat) (st : state) : state :=
  let st := set_ctx_store (λ l,
              match l !! dialogContext with
              | Some c => <[dialogContext :=
                             mkContext (VStr name) (dc_builtin_host c)
                               (dc_attached c) (dc_compositionComplete c)]> l
              | None => l
              end) st in
  let st := set_contexts (<[name := dialogContext]>) st in
  set_helpers (<[helperName name := name]>) st.

(** [createCompositionSettings], lines 146-161.  Reading a property of
    [undefined] throws: [None]. *)
Definition createCompositionSettings (obj : value) (dialogContext : option DialogContext)
  : option CompositionSettings :=
  match dialogContext with
  | None => None
  | Some c => Some (mkSettings obj false (dc_attached c) (dc_compositionComplete c))
  end.

(** [getDialog], lines 168-174; [None] is [undefined]. *)
Definition getDialog (obj : value) (st : state) : option nat :=
  if truthy obj then
    match obj with
    | VObj o => dialog_prop st !! o
    | _ => None
    end
  else None.

(** *** The built-in context, lines 283-372 *)

Definition set_host (theDialog : nat) (h b : Z) : state → state :=
  set_sessions (alter (λ d, mkDialog (owner d) (context d) (activator d)
                              (promise d) (settings d) (Some h) (Some b)) theDialog).

Definition set_settings (theDialog : nat) (s : CompositionSettings) : state → state :=
  set_sessions (alter (λ d, mkDialog (owner d) (context d) (activator d)
                              (promise d) (Some s) (host d) (blockout d)) theDialog).

(** [addHost]: the blockout takes the next stacking value, the host the
    one after it; the document is scroll-locked when no dialog is open
    yet.  A context of the application only has its call recorded. *)
Definition addHost (c : DialogContext) (theDialog : nat) (st : state) : state :=
  let st := emit (AddHost theDialog) st in
  if dc_builtin_host c then
    let '(zb, st) := getNextZIndex st in
    let '(zh, st) := getNextZIndex st in
    let st := set_host theDialog zh zb st in
    if isOpen st then st else emit LockScroll st
  else st.

(** [removeHost]: the elements fade and are removed after [removeDelay];
    the scroll lock is released when no dialog is open any more. *)
Definition removeHost (c : DialogContext) (theDialog : nat) (st : state) : state :=
  let st := emit (RemoveHost theDialog) st in
  if dc_builtin_host c then
    if isOpen st then st else emit UnlockScroll st
  else st.

(** *** show and close *)

(** The callback of [activateItem(...).then], lines 204-231.  The
    assignment [instance.__dialog__ = ...] throws for [undefined] and
    [null], is dropped for the other primitives (the file is not in
    strict mode), and sets the property of an object.  With no context
    under the name given to [show], [createCompositionSettings] throws
    at [dialogContext.attached], after the session was attached. *)
Definition on_activated (dfd : nat) (instance : value) (dialogContext : option nat)
    (dialogActivator : nat) (success : bool) (st : state) : state :=
  if success then
    match instance with
    | VUndefined | VNull => emit Throw st
    | _ =>
      let theDialog := length (sessions st) in
      let st := set_sessions (λ l, l ++ [mkDialog instance dialogContext
                                dialogActivator dfd None None None]) st in
      let st := match instance with
                | VObj o => set_dialog_prop (<[o := theDialog]>) st
                | _ => st
                end in
      match createCompositionSettings instance (deref st dialogContext) with
      | None => emit Throw st
      | Some s =>
        let st := set_settings theDialog s st in
        match deref st dialogContext with
        | None => emit Throw st
        | Some c =>
          let st := addHost c theDialog st in
          let st := set_dialogCount js_incr st in
          emit (Compose theDialog) st
        end
      end
    end
  else settle dfd [VBool false] st.

(** The callback of [ensureDialogInstance(obj).then], lines 201-232:
    a fresh activator is asked to activate the instance. *)
Definition on_instance (dfd : nat) (instance activationData : value)
    (dialogContext : option nat) (st : state) : state :=
  let dialogActivator := activators st in
  park (AwaitActivate dfd instance activationData dialogContext dialogActivator)
    (set_activators S st).

(** [ensureDialogInstance], lines 79-89, together with the [then] its
    caller chains to it: a string is handed to [system.acquire], whose
    success callback alone is given ([wait] is the continuation parked
    on it); anything else is the instance, for which [k] runs. *)
Definition ensureDialogInstance (objOrModuleId : value) (wait : string → continuation)
    (k : value → state → state) (st : state) : state :=
  if isString objOrModuleId
  then park (wait (to_key objOrModuleId)) st
  else k objOrModuleId st.

(** [show], lines 196-234.  Returns the deferred behind the returned
    promise. *)
Definition show (obj activationData context : value) (st : state) : nat * state :=
  let dialogContext := contexts st !! to_key (js_or context (VStr "default")) in
  let dfd := length (deferreds st) in
  let st := set_deferreds (λ l, l ++ [Pending]) st in
  (dfd,
   ensureDialogInstance obj
     (λ moduleId, AwaitAcquire dfd moduleId activationData dialogContext)
     (λ instance, on_instance dfd instance activationData dialogContext)
     st).

(** [theDialog.close], lines 210-220: deactivation is requested; the
    arguments wait with the continuation. *)
Definition dialog_close (theDialog : nat) (args : list value) (st : state) : state :=
  match sessions st !! theDialog with
  | Some _ => park (AwaitDeactivate theDialog args) st
  | None => st
  end.

(** The callback of [deactivateItem(instance, true).then], lines 212-219.
    With no context, [dialogContext.removeHost] throws after the
    decrement. *)
Definition on_deactivated (theDialog : nat) (args : list value) (closeSuccess : bool)
    (st : state) : state :=
  match sessions st !! theDialog with
  | None => st
  | Some d =>
    if closeSuccess then
      let st := set_dialogCount js_decr st in
      match deref st (context d) with
      | None => emit Throw st
      | Some c =>
        let st := removeHost c theDialog st in
        let st := match owner d with
                  | VObj o => set_dialog_prop (delete o) st
                  | _ => st
                  end in
        settle (promise d) args st
      end
    else st
  end.

(** [close], lines 181-187. *)
Definition close (obj : value) (rest : list value) (st : state) : state :=
  match getDialog obj st with
  | Some theDialog => dialog_close theDialog rest st
  | None => st
  end.

(** ** Executions *)

(** What happens to the manager: a call from the application, or the
    completion of a parked continuation.  [Show] and [Close] are entries
    into the functions [show] and [close] of the source, however they
    are reached; [DialogClose] is a call of [theDialog.close] through a
    reference the caller kept.  [Acquired t None] is a failed
    [system.acquire]: nothing of the plugin runs, since [then] was given
    a success callback only. *)
Inductive event :=
| NewContext (c : DialogContext)
| AddContext (name : string) (dialogContext : nat)
| Show (obj activationData context : value)
| Close (obj : value) (rest : list value)
| DialogClose (theDialog : nat) (args : list value)
| GetNextZIndex
| Acquired (task : nat) (result : option value)
| Activated (task : nat) (success : bool)
| Deactivated (task : nat) (closeSuccess : bool).

Definition step (e : event) (st : state) : state :=
  match e with
  | NewContext c => set_ctx_store (λ l, l ++ [c]) st
  | AddContext name dialogContext =>
    if decide (dialogContext < length (ctx_store st))%nat
    then addContext name dialogContext st else st
  | Show obj activationData context => snd (show obj activationData context st)
  | Close obj rest => close obj rest st
  | DialogClose theDialog args => dialog_close theDialog args st
  | GetNextZIndex => snd (getNextZIndex st)
  | Acquired task result =>
    match tasks st !! task, result with
    | Some (AwaitAcquire dfd _ activationData dialogContext), Some instance =>
      on_instance dfd instance activationData dialogContext (finish task st)
    | Some (AwaitAcquire _ _ _ _), None => finish task st
    | _, _ => st
    end
  | Activated task success =>
    match tasks st !! task with
    | Some (AwaitActivate dfd instance _ dialogContext dialogActivator) =>
      on_activated dfd instance dialogContext dialogActivator success (finish task st)
    | _ => st
    end
  | Deactivated task closeSuccess =>
    match tasks st !! task with
    | Some (AwaitDeactivate theDialog args) =>
      on_deactivated theDialog args closeSuccess (finish task st)
    | _ => st
    end
  end.

Definition run (es : list event) (st : state) : state :=
  fold_left (λ s e, step e s) es st.

(** The module after it has loaded: the built-in context is registered
    under ['default'] (line 283). *)
Definition empty_state : state :=
  mkState ∅ 0 1050 ∅ [] ∅ [] [] [] 0%nat [].

Definition default_context : DialogContext :=
  mkContext VUndefined true false true.

Definition init : state :=
  run [NewContext default_context; AddContext "default" 0%nat] empty_state.

(** *** Calling a property of the manager *)

(** The outcome of calling a property of the manager as a function: the
    promise it returns, or no return at all because the calls nest
    without end, or no function of [addContext] or [show] under that
    property. *)
Inductive outcome :=
| Returns (dfd : nat) (st : state)
| NoReturn
| NotShown.

(** [dialog[prop](obj, activationData, context)].  A function assigned by
    [addContext] hides whatever the property held, [show] included; it
    ignores its third argument and calls [this.show(obj, activationData,
    name)] (line 143).  [depth] bounds the nesting of calls. *)
Fixpoint call (depth : nat) (prop : string) (obj activationData context : value)
    (st : state) : outcome :=
  match depth with
  | O => NoReturn
  | S depth' =>
    match helpers st !! prop with
    | Some name => call depth' "show" obj activationData (VStr name) st
    | None =>
      if String.eqb prop "show"
      then let '(dfd, st') := show obj activationData context st in Returns dfd st'
      else NotShown
    end
  end.

(** [K] calls of [getNextZIndex] in a row: the values returned, in order,
    and the state left. *)
Fixpoint getNextZIndex_times (K : nat) (st : state) : list Z * state :=
  match K with
  | O => ([], st)
  | S k =>
    let '(z, st1) := getNextZIndex st in
    let '(zs, st2) := getNextZIndex_times k st1 in
    (z :: zs, st2)
  end.

Definition strictly_increasing (l : list Z) : Prop :=
  ∀ i j a b, (i < j)%nat → l !! i = Some a → l !! j = Some b → a < b.

(** ** The vocabulary of the properties *)

(** What identifies a session: the values its [close] function captured. *)
Definition ident (d : Dialog) : value * option nat * nat * nat :=
  (owner d, context d, activator d, promise d).

Definition task_deferred (k : continuation) : option nat :=
  match k with
  | AwaitAcquire dfd _ _ _ | AwaitActivate dfd _ _ _ _ => Some dfd
  | _ => None
  end.

Definition idents (st : state) : list (value * option nat * nat * nat) :=
  ident <$> sessions st.

(** The shapes a step can have, as far as the parked continuations, the
    deferreds and the identity of the sessions go. *)
Inductive change (e : event) (st st' : state) : Prop :=
| ch_same :
    tasks st' = tasks st → deferreds st' = deferreds st → idents st' = idents st →
    change e st st'
| ch_show k :
    task_deferred k = Some (length (deferreds st)) →
    tasks st' = tasks st ++ [k] → deferreds st' = deferreds st ++ [Pending] →
    idents st' = idents st → change e st st'
| ch_park k :
    task_deferred k = None →
    tasks st' = tasks st ++ [k] → deferreds st' = deferreds st →
    idents st' = idents st → change e st st'
| ch_drop t :
    tasks st' = <[t := Done]> (tasks st) → deferreds st' = deferreds st →
    idents st' = idents st → change e st st'
| ch_pass t k0 k dfd :
    tasks st !! t = Some k0 → task_deferred k0 = Some dfd → task_deferred k = Some dfd →
    tasks st' = <[t := Done]> (tasks st) ++ [k] → deferreds st' = deferreds st →
    idents st' = idents st → change e st st'
| ch_decline t dfd instance data dc a :
    e = Activated t false →
    tasks st !! t = Some (AwaitActivate dfd instance data dc a) →
    tasks st' = <[t := Done]> (tasks st) →
    deferreds st' = alter (resolve [VBool false]) dfd (deferreds st) →
    idents st' = idents st → change e st st'
| ch_open t k0 dfd x :
    tasks st !! t = Some k0 → task_deferred k0 = Some dfd →
    tasks st' = <[t := Done]> (tasks st) → deferreds st' = deferreds st →
    idents st' = idents st ++ [x] → x.2 = dfd → change e st st'
| ch_close t d sd args :
    e = Deactivated t true →
    tasks st !! t = Some (AwaitDeactivate d args) → sessions st !! d = Some sd →
    tasks st' = <[t := Done]> (tasks st) →
    deferreds st' = alter (resolve args) (promise sd) (deferreds st) →
    idents st' = idents st → change e st st'.

(** A deferred is held by the continuation of the [show] that made it
    until activation completes, and by the session's [close] function
    afterwards: a held deferred is pending, has one holder, and is not
    the promise of a session while a continuation holds it. *)
Record consistent (st : state) : Prop := {
  held_pending : ∀ t k dfd,
    tasks st !! t = Some k → task_deferred k = Some dfd →
    deferreds st !! dfd = Some Pending;
  held_once : ∀ t1 t2 k1 k2 dfd,
    tasks st !! t1 = Some k1 → tasks st !! t2 = Some k2 →
    task_deferred k1 = Some dfd → task_deferred k2 = Some dfd → t1 = t2;
  held_apart : ∀ t k d x,
    tasks st !! t = Some k → idents st !! d = Some x →
    task_deferred k ≠ Some x.2;
  promise_bound : ∀ d x,
    idents st !! d = Some x → (x.2 < length (deferreds st))%nat
}.

(** The two ways a deferred of [show] gets settled: activation was
    declined (line 229), or a [close] of a session holding the deferred
    had its deactivation succeed (line 217), with the arguments of that
    [close]. *)
Definition settles (e : event) (st : state) (dfd : nat) (args : list value) : Prop :=
  (args = [VBool false] ∧
   ∃ t instance data dc a,
     e = Activated t false ∧
     tasks st !! t = Some (AwaitActivate dfd instance data dc a))
  ∨
  (∃ t d sd,
     e = Deactivated t true ∧
     tasks st !! t = Some (AwaitDeactivate d args) ∧
     sessions st !! d = Some sd ∧ promise sd = dfd).

(** A deferred nobody can settle any more: no parked continuation and
    no session holds it. *)
Definition unheld (dfd : nat) (st : state) : Prop :=
  (∀ t k, tasks st !! t = Some k → task_deferred k ≠ Some dfd) ∧
  (∀ d x, idents st !! d = Some x → x.2 ≠ dfd) ∧
  (dfd < length (deferreds st))%nat.

(** Executions in which every event meets a condition on the state it
    happens in. *)
Fixpoint obeys (ok : state → event → Prop) (es : list event) (st : state) : Prop :=
  match es with
  | [] => True
  | e :: es' => ok st e ∧ obeys ok es' (step e st)
  end.

(** [addContext] is not given an object that is registered under another
    name at that time. *)
Definition registers_unshared (st : state) (e : event) : Prop :=
  match e with
  | AddContext name dialogContext =>
    ∀ other, contexts st !! other = Some dialogContext → other = name
  | _ => True
  end.

(** Every registered object carries the key it is registered under. *)
Definition names_match (st : state) : Prop :=
  ∀ name c, contexts st !! name = Some c →
    ∃ ctx, ctx_store st !! c = Some ctx ∧ dc_name ctx = VStr name.

(** [getContext(name).name] *)
Definition context_name (name : value) (st : state) : option value :=
  c ← getContext name st; dc_name <$> ctx_store st !! c.

(** A successful activation completes: lines 205-227 run. *)
Definition opens (st : state) (e : event) : bool :=
  match e with
  | Activated t true =>
    match tasks st !! t with
    | Some (AwaitActivate _ _ _ _ _) => true
    | _ => false
    end
  | _ => false
  end.

(** A successful deactivation completes: lines 213-218 run. *)
Definition closes (st : state) (e : event) : bool :=
  match e with
  | Deactivated t true =>
    match tasks st !! t with
    | Some (AwaitDeactivate d _) =>
      match sessions st !! d with Some _ => true | None => false end
    | _ => false
    end
  | _ => false
  end.

(** How many events of an execution satisfy [f]. *)
Fixpoint tally (f : state → event → bool) (es : list event) (st : state) : nat :=
  match es with
  | [] => 0
  | e :: es' => ((if f st e then 1 else 0) + tally f es' (step e st))%nat
  end.

(** The conditions the source does not check: an activation succeeds
    only for an object that carries no session, shown in a context that
    exists, with fewer than 2^53 dialogs open; a deactivation succeeds
    only for a session that is still attached to its owner. *)
Definition guarded (st : state) (e : event) : Prop :=
  match e with
  | Activated t true =>
    match tasks st !! t with
    | Some (AwaitActivate _ instance _ dialogContext _) =>
      (∃ o, instance = VObj o ∧ dialog_prop st !! o = None) ∧
      is_Some (deref st dialogContext) ∧
      dialogCount st < max_exact
    | _ => True
    end
  | Deactivated t true =>
    match tasks st !! t with
    | Some (AwaitDeactivate d _) =>
      ∀ sd, sessions st !! d = Some sd →
        ∃ o, owner sd = VObj o ∧ dialog_prop st !! o = Some d
    | _ => True
    end
  | _ => True
  end.

(** The counter is the number of objects carrying a session, and every
    attached session is one of its owner, in a context that exists. *)
Record accounted (st : state) : Prop := {
  count_is_size : dialogCount st = Z.of_nat (size (dialog_prop st));
  count_bounded : dialogCount st ≤ max_exact;
  attached_session : ∀ o d, dialog_prop st !! o = Some d →
    ∃ x, idents st !! d = Some x ∧ x.1.1.1 = VObj o ∧ is_Some (deref st x.1.1.2)
}.

(** Every registered reference points to an object, and ['default'] is
    registered. *)
Definition registry_sound (st : state) : Prop :=
  (∀ name c, contexts st !! name = Some c → is_Some (ctx_store st !! c)) ∧
  is_Some (contexts st !! "default").

(** ** Vocabulary of the counting of sessions *)








(** ** Vocabulary of the further properties *)

(** The session a successful activation makes, for an instance that is
    neither [undefined] nor [null]. *)
Definition new_session (dfd : nat) (instance : value) (dc : option nat) (a : nat)
    (st : state) : Dialog :=
  match deref st dc with
  | None => mkDialog instance dc a dfd None None None
  | Some c =>
    mkDialog instance dc a dfd
      (Some (mkSettings instance false (dc_attached c) (dc_compositionComplete c)))
      (if dc_builtin_host c then Some (js_incr (js_incr (currentZIndex st))) else None)
      (if dc_builtin_host c then Some (js_incr (currentZIndex st)) else None)
  end.

(** The range the z-index counter stays in. *)
Definition zindex_bounded (st : state) : Prop :=
  1050 ≤ currentZIndex st ≤ max_exact.

(** Every mounted session of the built-in context has its host one
    above its blockout, both above 1050 and not above the counter; a
    session made later lies wholly above one made earlier. *)
Definition stacked (st : state) : Prop :=
  (∀ d sd, sessions st !! d = Some sd →
     (host sd = None ∧ blockout sd = None) ∨
     ∃ b, blockout sd = Some b ∧ host sd = Some (b + 1) ∧
          1050 < b ∧ b + 1 ≤ currentZIndex st) ∧
  (∀ d1 d2 sd1 sd2 h1 b2, (d1 < d2)%nat →
     sessions st !! d1 = Some sd1 → sessions st !! d2 = Some sd2 →
     host sd1 = Some h1 → blockout sd2 = Some b2 → h1 < b2).

(** The hooks of a context object: [addContext] rewrites its [name]
    only. *)
Definition same_hooks (c c' : DialogContext) : Prop :=
  dc_builtin_host c' = dc_builtin_host c ∧
  dc_attached c' = dc_attached c ∧
  dc_compositionComplete c' = dc_compositionComplete c.

(** The settings of a session are what [createCompositionSettings] makes
    of its owner and of the hooks of its context, and a session with a
    host has settings. *)
Definition settings_sound (st : state) : Prop :=
  ∀ d sd, sessions st !! d = Some sd →
    (∀ s, settings sd = Some s →
       model s = owner sd ∧ activate s = false ∧
       ∃ ctx, deref st (context sd) = Some ctx ∧
              cs_attached s = dc_attached ctx ∧
              cs_compositionComplete s = dc_compositionComplete ctx) ∧
    (settings sd = None → host sd = None ∧ blockout sd = None).

(** No two sessions hold the same deferred. *)
Definition promises_apart (st : state) : Prop :=
  ∀ d1 d2 x1 x2, idents st !! d1 = Some x1 → idents st !! d2 = Some x2 →
    x1.2 = x2.2 → d1 = d2.

(** A pending deferred that no continuation holds and that only
    sessions without a context hold. *)
Definition stuck (dfd : nat) (st : state) : Prop :=
  deferreds st !! dfd = Some Pending ∧
  (∀ t k, tasks st !! t = Some k → task_deferred k ≠ Some dfd) ∧
  (∀ d x, idents st !! d = Some x → x.2 = dfd → x.1.1.2 = None).

(** Locks of the document's scrolling set by [addHost] (lines 304-315)
    less those released by [removeHost] (lines 331-341). *)
Fixpoint scroll_locks (l : list effect) : Z :=
  match l with
  | [] => 0
  | LockScroll :: l' => 1 + scroll_locks l'
  | UnlockScroll :: l' => scroll_locks l' - 1
  | _ :: l' => scroll_locks l'
  end.

(** Every context object has the hooks of the built-in context. *)
Definition all_builtin (st : state) : Prop :=
  ∀ c ctx, ctx_store st !! c = Some ctx → dc_builtin_host ctx = true.

(** [guarded], and no context object with hooks of its own is made. *)
Definition guarded_builtin (st : state) (e : event) : Prop :=
  guarded st e ∧
  match e with
  | NewContext c => dc_builtin_host c = true
  | _ => True
  end.

(** * Properties *)

(** ** Numbers *)

Lemma round_double_exact z : Z.abs z ≤ max_exact → round_double z = z.
Proof.
  unfold max_exact. intros Hz.
  destruct (decide (Z.abs z = 2 ^ 53)) as [He|Hne].
  - destruct (Z.abs_eq_or_opp z) as [E|E]; rewrite E in He.
    + subst z. vm_compute. reflexivity.
    + assert (z = - 2 ^ 53) as -> by lia. vm_compute. reflexivity.
  - assert (Hlog : Z.log2 (Z.abs z) - 52 ≤ 0).
    { destruct (decide (Z.abs z = 0)) as [E0|N0].
      - rewrite E0. simpl. lia.
      - assert (Z.log2 (Z.abs z) < 53); [|lia].
        apply Z.log2_lt_pow2; lia. }
    unfold round_double, ulp_exp.
    rewrite Z.max_l by lia.
    change (2 ^ 0) with 1.
    rewrite Z.mod_1_r, Z.div_1_r. simpl. lia.
Qed.

Lemma js_incr_exact z : - max_exact - 1 ≤ z < max_exact → js_incr z = z + 1.
Proof. intros H. unfold js_incr. apply round_double_exact. unfold max_exact in *. lia. Qed.

Lemma js_decr_exact z : - max_exact < z ≤ max_exact + 1 → js_decr z = z - 1.
Proof. intros H. unfold js_decr. apply round_double_exact. unfold max_exact in *. lia. Qed.

Lemma js_incr_saturates : js_incr max_exact = max_exact.
Proof. vm_compute. reflexivity. Qed.

(** ** The z-index counter *)

Lemma getNextZIndex_times_values K : ∀ st,
  - max_exact - 1 ≤ currentZIndex st →
  currentZIndex st + Z.of_nat K ≤ max_exact →
  getNextZIndex_times K st =
    (map (λ i, currentZIndex st + 1 + Z.of_nat i) (seq 0 K),
     set_currentZIndex (λ _, currentZIndex st + Z.of_nat K) st).
Proof.
  induction K as [|K IH]; intros st Hlo Hhi.
  - simpl. f_equal. destruct st; unfold set_currentZIndex; simpl. f_equal. lia.
  - cbn [getNextZIndex_times]. unfold getNextZIndex.
    rewrite js_incr_exact by lia.
    rewrite IH by (simpl; lia).
    cbn [seq map]. f_equal.
    + f_equal; [lia|].
      rewrite <- seq_shift, map_map. apply map_ext. intros i. simpl. lia.
    + destruct st; unfold set_currentZIndex; simpl. f_equal. lia.
Qed.

Lemma strictly_increasing_affine (c : Z) (K : nat) :
  strictly_increasing (map (λ i, c + Z.of_nat i) (seq 0 K)).
Proof.
  intros i j a b Hij Ha Hb.
  rewrite list_lookup_fmap in Ha, Hb.
  destruct (seq 0 K !! i) as [i'|] eqn:Ei; [|discriminate].
  destruct (seq 0 K !! j) as [j'|] eqn:Ej; [|discriminate].
  apply lookup_seq in Ei as [-> _]. apply lookup_seq in Ej as [-> _].
  simpl in Ha, Hb. injection Ha as <-. injection Hb as <-. lia.
Qed.

Lemma strictly_increasing_NoDup l : strictly_increasing l → NoDup l.
Proof.
  intros Hl. apply NoDup_alt. intros i j x Hi Hj.
  destruct (Nat.lt_trichotomy i j) as [H|[H|H]]; [|done|].
  - specialize (Hl i j x x H Hi Hj). lia.
  - specialize (Hl j i x x H Hj Hi). lia.
Qed.

(** C7, amended.  Starting from a counter [c] with [-2^53 - 1 <= c] and
    [c + K <= 2^53], [K] calls of [getNextZIndex] return [c+1, ..., c+K]:
    [K] integers, each strictly greater than the one before (and the
    first greater than [c]), without repeats; the state left differs
    from the initial one in [currentZIndex] only. *)
Theorem getNextZIndex_strictly_increasing (K : nat) (st : state) :
  - max_exact - 1 ≤ currentZIndex st →
  currentZIndex st + Z.of_nat K ≤ max_exact →
  let zs := fst (getNextZIndex_times K st) in
  zs = map (λ i, currentZIndex st + 1 + Z.of_nat i) (seq 0 K) ∧
  length zs = K ∧
  strictly_increasing (currentZIndex st :: zs) ∧
  NoDup zs ∧
  snd (getNextZIndex_times K st) =
    set_currentZIndex (λ _, currentZIndex st + Z.of_nat K) st.
Proof.
  intros Hlo Hhi zs. subst zs.
  rewrite getNextZIndex_times_values by done. cbn [fst snd].
  assert (Hinc : strictly_increasing
            (currentZIndex st :: map (λ i, currentZIndex st + 1 + Z.of_nat i) (seq 0 K))).
  { replace (currentZIndex st :: _)
      with (map (λ i, currentZIndex st + Z.of_nat i) (seq 0 (S K))).
    - apply strictly_increasing_affine.
    - cbn [seq map]. f_equal; [lia|].
      rewrite <- seq_shift, map_map. apply map_ext. intros i. lia. }
  repeat split.
  - by rewrite length_map, length_seq.
  - exact Hinc.
  - apply strictly_increasing_NoDup in Hinc. by apply NoDup_cons in Hinc as [_ ?].
Qed.

Lemma getNextZIndex_strictly_increasing_witness :
  fst (getNextZIndex_times 3 init) = [1051; 1052; 1053] ∧
  strictly_increasing (1050 :: fst (getNextZIndex_times 3 init)).
Proof.
  assert (H1 : - max_exact - 1 ≤ currentZIndex init) by (vm_compute; discriminate).
  assert (H2 : currentZIndex init + Z.of_nat 3 ≤ max_exact) by (vm_compute; discriminate).
  destruct (getNextZIndex_strictly_increasing 3 init H1 H2) as (Hv & _ & Hs & _).
  split; [exact Hv | exact Hs].
Defined.

(** C7 as stated fails when the counter has reached 2^53, the largest
    value up to which a JavaScript number counts in steps of one: two
    further calls both return 2^53. *)
Lemma getNextZIndex_repeats_at_max_exact :
  let zs := fst (getNextZIndex_times 2 (set_currentZIndex (λ _, 2 ^ 53) init)) in
  zs = [2 ^ 53; 2 ^ 53] ∧ ¬ strictly_increasing zs ∧ ¬ NoDup zs.
Proof.
  assert (E : fst (getNextZIndex_times 2 (set_currentZIndex (λ _, 2 ^ 53) init))
              = [2 ^ 53; 2 ^ 53]) by (vm_compute; reflexivity).
  cbv zeta. rewrite E. split; [done|]. split.
  - intros H. specialize (H 0%nat 1%nat (2 ^ 53) (2 ^ 53)).
    assert (2 ^ 53 < 2 ^ 53); [|lia]. apply H; [lia|done|done].
  - intros H. apply NoDup_cons in H as [H _]. apply H. left.
Qed.

(** The counter does arrive there from the loaded module: [n] calls
    leave it at [1050 + n], capped at 2^53. *)
Lemma currentZIndex_after_calls (n : nat) :
  currentZIndex (run (repeat GetNextZIndex n) init) = Z.min (1050 + Z.of_nat n) max_exact.
Proof.
  induction n as [|n IH].
  - vm_compute. reflexivity.
  - change (repeat GetNextZIndex (S n)) with (GetNextZIndex :: repeat GetNextZIndex n).
    rewrite repeat_cons. unfold run in *. rewrite fold_left_app. cbn [fold_left].
    set (st := fold_left _ _ _) in *. cbn [step getNextZIndex snd].
    unfold set_currentZIndex. cbn [currentZIndex]. rewrite IH.
    destruct (decide (1050 + Z.of_nat n < max_exact)).
    + rewrite Z.min_l by lia. rewrite js_incr_exact by (unfold max_exact in *; lia).
      unfold max_exact in *. lia.
    + rewrite Z.min_r by lia. rewrite js_incr_saturates. unfold max_exact in *. lia.
Qed.

Lemma currentZIndex_reaches_max_exact :
  currentZIndex (run (repeat GetNextZIndex (Z.to_nat (max_exact - 1050))) init)
  = max_exact.
Proof.
  rewrite currentZIndex_after_calls.
  rewrite Z2Nat.id by (unfold max_exact; lia).
  apply Z.min_r. lia.
Qed.

(** ** Stores *)

Ltac fields :=
  cbn [contexts dialogCount currentZIndex helpers ctx_store dialog_prop sessions
       deferreds tasks activators effects
       set_contexts set_dialogCount set_currentZIndex set_helpers set_ctx_store
       set_dialog_prop set_sessions set_deferreds set_tasks set_activators
       set_effects emit park finish settle set_host set_settings
       getNextZIndex fst snd] in *.

Lemma lookup_snoc {A} (l : list A) (x : A) : (l ++ [x]) !! length l = Some x.
Proof. by apply list_lookup_middle. Qed.

Lemma insert_snoc {A} (l : list A) (x y : A) : <[length l := y]> (l ++ [x]) = l ++ [y].
Proof. rewrite insert_app_r_alt by lia. by rewrite Nat.sub_diag. Qed.

Lemma lookup_snoc_Some {A} (l : list A) (x y : A) (i : nat) :
  (l ++ [x]) !! i = Some y → l !! i = Some y ∨ (i = length l ∧ y = x).
Proof.
  intros H. apply lookup_app_Some in H as [H|[Hle H]]; [by left|].
  right. destruct (i - length l)%nat as [|n] eqn:E; simpl in H; [|done].
  split; [lia|congruence].
Qed.

Lemma fmap_alter_same {A B} (h : A → B) (g : A → A) (i : nat) (l : list A) :
  (∀ x, h (g x) = h x) → h <$> alter g i l = h <$> l.
Proof.
  intros Hg. revert i. induction l as [|a l IH]; intros [|i]; simpl; try done.
  - by rewrite Hg.
  - f_equal. apply IH.
Qed.

Lemma run_app es1 es2 st : run (es1 ++ es2) st = run es2 (run es1 st).
Proof. unfold run. apply fold_left_app. Qed.

Lemma run_cons e es st : run (e :: es) st = run es (step e st).
Proof. reflexivity. Qed.

Lemma run_snoc es e st : run (es ++ [e]) st = step e (run es st).
Proof. by rewrite run_app. Qed.

Lemma run_invariant (P : state → Prop) :
  (∀ s e, P s → P (step e s)) → ∀ es st, P st → P (run es st).
Proof.
  intros Hstep es. induction es as [|e es IH]; intros st Hst; [done|].
  rewrite run_cons. apply IH, Hstep, Hst.
Qed.

(** *** What a step does to each store *)

Lemma addHost_frame c d st :
  tasks (addHost c d st) = tasks st ∧
  deferreds (addHost c d st) = deferreds st ∧
  ident <$> sessions (addHost c d st) = ident <$> sessions st ∧
  dialog_prop (addHost c d st) = dialog_prop st ∧
  dialogCount (addHost c d st) = dialogCount st ∧
  contexts (addHost c d st) = contexts st ∧
  ctx_store (addHost c d st) = ctx_store st ∧
  helpers (addHost c d st) = helpers st.
Proof.
  unfold addHost. destruct (dc_builtin_host c); fields; [|done].
  destruct (isOpen _); fields; repeat split; try done;
    by apply fmap_alter_same.
Qed.

Lemma removeHost_frame c d st :
  tasks (removeHost c d st) = tasks st ∧
  deferreds (removeHost c d st) = deferreds st ∧
  sessions (removeHost c d st) = sessions st ∧
  dialog_prop (removeHost c d st) = dialog_prop st ∧
  dialogCount (removeHost c d st) = dialogCount st ∧
  currentZIndex (removeHost c d st) = currentZIndex st ∧
  contexts (removeHost c d st) = contexts st ∧
  ctx_store (removeHost c d st) = ctx_store st ∧
  helpers (removeHost c d st) = helpers st.
Proof.
  unfold removeHost. destruct (dc_builtin_host c); fields; [|done].
  destruct (isOpen _); fields; done.
Qed.

Lemma on_activated_declined dfd instance dc a st :
  on_activated dfd instance dc a false st = settle dfd [VBool false] st.
Proof. reflexivity. Qed.

Lemma on_activated_frame dfd instance dc a st :
  let st' := on_activated dfd instance dc a true st in
  tasks st' = tasks st ∧
  deferreds st' = deferreds st ∧
  contexts st' = contexts st ∧
  ctx_store st' = ctx_store st ∧
  helpers st' = helpers st ∧
  (ident <$> sessions st' = ident <$> sessions st ∨
   ident <$> sessions st' = (ident <$> sessions st) ++ [(instance, dc, a, dfd)]).
Proof.
  unfold on_activated.
  assert (Hsplit : ∀ s0 : state,
    let s1 := match instance with
              | VObj o => set_dialog_prop (<[o := length (sessions st)]>) s0
              | _ => s0
              end in
    tasks s1 = tasks s0 ∧ deferreds s1 = deferreds s0 ∧ contexts s1 = contexts s0 ∧
    ctx_store s1 = ctx_store s0 ∧ helpers s1 = helpers s0 ∧ sessions s1 = sessions s0).
  { intros s0. destruct instance; fields; done. }
  set (s0 := set_sessions _ st).
  specialize (Hsplit s0). cbv zeta in Hsplit.
  set (s1 := match instance with VObj _ => _ | _ => s0 end) in *.
  destruct Hsplit as (Ht & Hd & Hc & Hs & Hh & Hse).
  assert (Hid : ident <$> sessions s1 = (ident <$> sessions st) ++ [(instance, dc, a, dfd)]).
  { rewrite Hse. subst s0. fields. by rewrite fmap_app. }
  assert (Hmain :
    let st' := match createCompositionSettings instance (deref s1 dc) with
               | None => emit Throw s1
               | Some s =>
                 match deref (set_settings (length (sessions st)) s s1) dc with
                 | None => emit Throw (set_settings (length (sessions st)) s s1)
                 | Some c =>
                   emit (Compose (length (sessions st)))
                     (set_dialogCount js_incr
                        (addHost c (length (sessions st))
                           (set_settings (length (sessions st)) s s1)))
                 end
               end in
    tasks st' = tasks st ∧ deferreds st' = deferreds st ∧ contexts st' = contexts st ∧
    ctx_store st' = ctx_store st ∧ helpers st' = helpers st ∧
    ident <$> sessions st' = (ident <$> sessions st) ++ [(instance, dc, a, dfd)]).
  { cbv zeta. destruct (createCompositionSettings _ _) as [s|]; [|fields; done].
    destruct (deref _ dc) as [c|].
    - destruct (addHost_frame c (length (sessions st))
                  (set_settings (length (sessions st)) s s1))
        as (Ht' & Hd' & Hi' & _ & _ & Hc' & Hs' & Hh').
      fields. rewrite Ht', Hd', Hi', Hc', Hs', Hh'. fields.
      rewrite fmap_alter_same by done. done.
    - fields. rewrite fmap_alter_same by done. done. }
  cbv zeta in Hmain. cbv zeta.
  destruct instance; fields;
    first [ by (repeat split; try done; left)
          | by (destruct Hmain as (?&?&?&?&?&?); repeat split; try done; right) ].
Qed.

Lemma on_deactivated_frame d args b st :
  let st' := on_deactivated d args b st in
  tasks st' = tasks st ∧
  sessions st' = sessions st ∧
  contexts st' = contexts st ∧
  ctx_store st' = ctx_store st ∧
  helpers st' = helpers st ∧
  (deferreds st' = deferreds st ∨
   ∃ sd, b = true ∧ sessions st !! d = Some sd ∧
         deferreds st' = alter (resolve args) (promise sd) (deferreds st)).
Proof.
  unfold on_deactivated. cbv zeta.
  destruct (sessions st !! d) as [sd|] eqn:Esd; [|by repeat split; try left].
  destruct b; [|by repeat split; try left].
  destruct (deref _ (context sd)) as [c|]; [|fields; by repeat split; try left].
  set (s1 := removeHost c d _).
  destruct (removeHost_frame c d (set_dialogCount js_decr st))
    as (Ht & Hd & Hs & _ & _ & _ & Hc & Hcs & Hh).
  fold s1 in Ht, Hd, Hs, Hc, Hcs, Hh.
  assert (Hs2 : ∀ s0 : state,
    let s2 := match owner sd with
              | VObj o => set_dialog_prop (delete o) s0
              | _ => s0
              end in
    tasks s2 = tasks s0 ∧ deferreds s2 = deferreds s0 ∧ contexts s2 = contexts s0 ∧
    ctx_store s2 = ctx_store s0 ∧ helpers s2 = helpers s0 ∧ sessions s2 = sessions s0).
  { intros s0. destruct (owner sd); fields; done. }
  specialize (Hs2 s1). cbv zeta in Hs2.
  set (s2 := match owner sd with VObj _ => _ | _ => s1 end) in *.
  destruct Hs2 as (Ht2 & Hd2 & Hc2 & Hcs2 & Hh2 & Hse2).
  fields. rewrite Ht2, Hd2, Hc2, Hcs2, Hh2, Hse2, Ht, Hd, Hs, Hc, Hcs, Hh. fields.
  repeat split; try done. right. by exists sd.
Qed.

Lemma step_change e st : change e st (step e st).
Proof.
  destruct e as [c|name dc|obj data ctx|obj rest|d args| |t result|t b|t b];
    cbn [step].
  - apply ch_same; reflexivity.
  - case_decide; apply ch_same; reflexivity.
  - unfold show, ensureDialogInstance, on_instance. cbn [snd].
    destruct obj; fields;
      (eapply ch_show; [|reflexivity..]; reflexivity).
  - unfold close, dialog_close. destruct (getDialog obj st); [|by (apply ch_same; reflexivity)].
    destruct (sessions st !! _); [|by (apply ch_same; reflexivity)].
    eapply ch_park; [|reflexivity..]; reflexivity.
  - unfold dialog_close. destruct (sessions st !! _); [|by (apply ch_same; reflexivity)].
    eapply ch_park; [|reflexivity..]; reflexivity.
  - apply ch_same; reflexivity.
  - destruct (tasks st !! t) as [k0|] eqn:Et; [|by (apply ch_same; reflexivity)].
    destruct k0 as [dfd m data dc| | |]; try (apply ch_same; reflexivity).
    destruct result as [instance|].
    + unfold on_instance. fields. eapply ch_pass; [exact Et|reflexivity| |reflexivity..]; reflexivity.
    + eapply ch_drop; reflexivity.
  - destruct (tasks st !! t) as [k0|] eqn:Et; [|by (apply ch_same; reflexivity)].
    destruct k0 as [|dfd instance data dc a| |]; try (apply ch_same; reflexivity).
    destruct b.
    + destruct (on_activated_frame dfd instance dc a (finish t st))
        as (Ht & Hd & _ & _ & _ & [Hs|Hs]).
      * eapply ch_drop; [exact Ht|exact Hd|exact Hs].
      * eapply ch_open; [exact Et|reflexivity|exact Ht|exact Hd|exact Hs|reflexivity].
    + rewrite on_activated_declined. eapply ch_decline; [reflexivity|exact Et|reflexivity..].
  - destruct (tasks st !! t) as [k0|] eqn:Et; [|by (apply ch_same; reflexivity)].
    destruct k0 as [| |d args|]; try (apply ch_same; reflexivity).
    destruct (on_deactivated_frame d args b (finish t st))
      as (Ht & Hs & _ & _ & _ & [Hd|(sd & -> & Hsd & Hd)]).
    + eapply ch_drop; [exact Ht|exact Hd|]. unfold idents. by rewrite Hs.
    + eapply ch_close; [reflexivity|exact Et|exact Hsd|exact Ht|exact Hd|].
      unfold idents. by rewrite Hs.
Qed.

(** ** Who may settle a deferred *)

Lemma lookup_finish (l : list continuation) t t' k dfd :
  <[t := Done]> l !! t' = Some k → task_deferred k = Some dfd →
  l !! t' = Some k ∧ t' ≠ t.
Proof.
  intros H Hk. destruct (decide (t = t')) as [->|Hne].
  - destruct (decide (t' < length l)%nat).
    + rewrite list_lookup_insert_eq in H by done. injection H as <-. discriminate.
    + rewrite list_insert_ge in H by lia. apply lookup_lt_Some in H. lia.
  - rewrite list_lookup_insert_ne in H by done. split; [done|congruence].
Qed.

Lemma lookup_idents st d sd :
  sessions st !! d = Some sd → idents st !! d = Some (ident sd).
Proof. intros H. unfold idents. by rewrite list_lookup_fmap, H. Qed.

Lemma consistent_change e st st' : change e st st' → consistent st → consistent st'.
Proof.
  intros Hch [HP HO HA HB].
  destruct Hch as [Ht Hd Hi | k Hk Ht Hd Hi | k Hk Ht Hd Hi | t Ht Hd Hi
                  | t k0 k dfd Et Hk0 Hk Ht Hd Hi | t dfd instance data dc a He Et Ht Hd Hi
                  | t k0 dfd x Et Hk0 Ht Hd Hi Hx | t d sd args He Et Esd Ht Hd Hi];
    split; rewrite ?Ht, ?Hd, ?Hi.
  (* same *)
  - done.
  - done.
  - done.
  - done.
  (* show *)
  - intros t' k' dfd' H Hk'. apply lookup_snoc_Some in H as [H|[-> ->]].
    + apply lookup_app_l_Some. eauto.
    + rewrite Hk in Hk'. injection Hk' as <-. apply lookup_snoc.
  - intros t1 t2 k1 k2 dfd' H1 H2 Hk1 Hk2.
    apply lookup_snoc_Some in H1 as [H1|[-> ->]];
      apply lookup_snoc_Some in H2 as [H2|[-> ->]]; [eauto| | |done].
    + specialize (HP _ _ _ H1 Hk1). apply lookup_lt_Some in HP.
      rewrite Hk in Hk2. injection Hk2 as <-. lia.
    + specialize (HP _ _ _ H2 Hk2). apply lookup_lt_Some in HP.
      rewrite Hk in Hk1. injection Hk1 as <-. lia.
  - intros t' k' d x H Hx. apply lookup_snoc_Some in H as [H|[-> ->]]; [eauto|].
    rewrite Hk. specialize (HB _ _ Hx). intros [=]. lia.
  - intros d x Hx. specialize (HB _ _ Hx). rewrite length_app. simpl. lia.
  (* park *)
  - intros t' k' dfd' H Hk'. apply lookup_snoc_Some in H as [H|[-> ->]]; [eauto|congruence].
  - intros t1 t2 k1 k2 dfd' H1 H2 Hk1 Hk2.
    apply lookup_snoc_Some in H1 as [H1|[-> ->]];
      apply lookup_snoc_Some in H2 as [H2|[-> ->]]; [eauto|congruence..].
  - intros t' k' d x H Hx. apply lookup_snoc_Some in H as [H|[-> ->]]; [eauto|congruence].
  - done.
  (* drop *)
  - intros t' k' dfd' H Hk'. eapply lookup_finish in H as [H _]; eauto.
  - intros t1 t2 k1 k2 dfd' H1 H2 Hk1 Hk2.
    eapply lookup_finish in H1 as [H1 _]; [|done].
    eapply lookup_finish in H2 as [H2 _]; [|done]. eauto.
  - intros t' k' d x H Hx Hk'. eapply lookup_finish in H as [H _]; [|done].
    by eapply HA.
  - done.
  (* pass *)
  - intros t' k' dfd' H Hk'. apply lookup_snoc_Some in H as [H|[_ ->]].
    + eapply lookup_finish in H as [H _]; eauto.
    + rewrite Hk in Hk'. injection Hk' as <-. eauto.
  - intros t1 t2 k1 k2 dfd' H1 H2 Hk1 Hk2.
    apply lookup_snoc_Some in H1 as [H1|[E1 ->]];
      apply lookup_snoc_Some in H2 as [H2|[E2 ->]]; [| | |congruence].
    + eapply lookup_finish in H1 as [H1 _]; [|done].
      eapply lookup_finish in H2 as [H2 _]; [|done]. eauto.
    + eapply lookup_finish in H1 as [H1 Hne]; [|done].
      rewrite Hk in Hk2. injection Hk2 as <-.
      destruct Hne. eauto.
    + eapply lookup_finish in H2 as [H2 Hne]; [|done].
      rewrite Hk in Hk1. injection Hk1 as <-.
      destruct Hne. eauto.
  - intros t' k' d x H Hx Hk'. apply lookup_snoc_Some in H as [H|[_ ->]].
    + eapply lookup_finish in H as [H _]; [|done]. by eapply HA.
    + eapply (HA t k0 d x); [done..|]. congruence.
  - done.
  (* decline *)
  - intros t' k' dfd' H Hk'. eapply lookup_finish in H as [H Hne]; [|done].
    rewrite list_lookup_alter_ne; [eauto|].
    intros ->. destruct Hne. eauto.
  - intros t1 t2 k1 k2 dfd' H1 H2 Hk1 Hk2.
    eapply lookup_finish in H1 as [H1 _]; [|done].
    eapply lookup_finish in H2 as [H2 _]; [|done]. eauto.
  - intros t' k' d x H Hx Hk'. eapply lookup_finish in H as [H _]; [|done].
    by eapply HA.
  - intros d x Hx. rewrite length_alter. eauto.
  (* open *)
  - intros t' k' dfd' H Hk'. eapply lookup_finish in H as [H _]; eauto.
  - intros t1 t2 k1 k2 dfd' H1 H2 Hk1 Hk2.
    eapply lookup_finish in H1 as [H1 _]; [|done].
    eapply lookup_finish in H2 as [H2 _]; [|done]. eauto.
  - intros t' k' d y H Hy Hk'. eapply lookup_finish in H as [H Hne]; [|done].
    apply lookup_snoc_Some in Hy as [Hy|[_ ->]].
    + by eapply HA.
    + destruct Hne. eapply HO; [done..|]. congruence.
  - intros d y Hy. apply lookup_snoc_Some in Hy as [Hy|[_ ->]]; [eauto|].
    rewrite Hx. eapply lookup_lt_Some, HP; done.
  (* close *)
  - intros t' k' dfd' H Hk'. eapply lookup_finish in H as [H Hne]; [|done].
    rewrite list_lookup_alter_ne; [eauto|].
    intros E. eapply (HA t' k' d (ident sd)); [done|by apply lookup_idents|].
    rewrite Hk', <- E. reflexivity.
  - intros t1 t2 k1 k2 dfd' H1 H2 Hk1 Hk2.
    eapply lookup_finish in H1 as [H1 _]; [|done].
    eapply lookup_finish in H2 as [H2 _]; [|done]. eauto.
  - intros t' k' d' x H Hx Hk'. eapply lookup_finish in H as [H _]; [|done].
    by eapply HA.
  - intros d' x Hx. rewrite length_alter. eauto.
Qed.

Lemma consistent_step e st : consistent st → consistent (step e st).
Proof. eapply consistent_change, step_change. Qed.

Lemma consistent_empty : consistent empty_state.
Proof. split; intros *; cbn; intros H; by rewrite ?lookup_nil in H. Qed.

Lemma consistent_run es : consistent (run es init).
Proof.
  apply run_invariant; [intros; by apply consistent_step|].
  unfold init. apply run_invariant; [intros; by apply consistent_step|].
  apply consistent_empty.
Qed.

Lemma deferred_step e st dfd :
  match deferreds st !! dfd with
  | None => True
  | Some Pending =>
    deferreds (step e st) !! dfd = Some Pending ∨
    ∃ args, deferreds (step e st) !! dfd = Some (Resolved args) ∧ settles e st dfd args
  | Some d => deferreds (step e st) !! dfd = Some d
  end.
Proof.
  destruct (deferreds st !! dfd) as [d0|] eqn:E; [|done].
  assert (Hsame : deferreds (step e st) = deferreds st →
    match d0 with
    | Pending => deferreds (step e st) !! dfd = Some Pending ∨
       ∃ args, deferreds (step e st) !! dfd = Some (Resolved args) ∧ settles e st dfd args
    | _ => deferreds (step e st) !! dfd = Some d0
    end).
  { intros ->. destruct d0; auto. }
  assert (Halter : ∀ i args, deferreds (step e st) = alter (resolve args) i (deferreds st) →
    settles e st i args →
    match d0 with
    | Pending => deferreds (step e st) !! dfd = Some Pending ∨
       ∃ args, deferreds (step e st) !! dfd = Some (Resolved args) ∧ settles e st dfd args
    | _ => deferreds (step e st) !! dfd = Some d0
    end).
  { intros i args -> Hs. destruct (decide (i = dfd)) as [->|Hne].
    - rewrite list_lookup_alter_eq, E. destruct d0; simpl; [right; by exists args|done..].
    - rewrite list_lookup_alter_ne, E by done. destruct d0; auto. }
  destruct (step_change e st)
    as [Ht Hd Hi | k Hk Ht Hd Hi | k Hk Ht Hd Hi | t Ht Hd Hi
       | t k0 k dfd' Et Hk0 Hk Ht Hd Hi | t dfd' instance data dc a He Et Ht Hd Hi
       | t k0 dfd' x Et Hk0 Ht Hd Hi Hx | t d sd args He Et Esd Ht Hd Hi];
    try (by apply Hsame).
  - rewrite Hd, (lookup_app_l_Some _ _ _ _ E). destruct d0; auto.
  - apply (Halter _ _ Hd). left. split; [done|]. by exists t, instance, data, dc, a.
  - apply (Halter _ _ Hd). right. by exists t, d, sd.
Qed.

Lemma resolved_step e st dfd args :
  deferreds st !! dfd = Some (Resolved args) →
  deferreds (step e st) !! dfd = Some (Resolved args).
Proof. intros H. pose proof (deferred_step e st dfd) as Hs. by rewrite H in Hs. Qed.

Lemma resolved_run es st dfd args :
  deferreds st !! dfd = Some (Resolved args) →
  deferreds (run es st) !! dfd = Some (Resolved args).
Proof.
  intros H. revert H. apply (run_invariant (λ s, deferreds s !! dfd = Some (Resolved args))).
  intros s e. apply resolved_step.
Qed.

Lemma pending_history es : ∀ st dfd,
  deferreds st !! dfd = Some Pending →
  (∀ p, p `prefix_of` es → deferreds (run p st) !! dfd = Some Pending) ∨
  ∃ es1 e es2 args,
    es = es1 ++ e :: es2 ∧
    (∀ p, p `prefix_of` es1 → deferreds (run p st) !! dfd = Some Pending) ∧
    settles e (run es1 st) dfd args ∧
    (∀ p, p `prefix_of` es2 →
       deferreds (run (es1 ++ e :: p) st) !! dfd = Some (Resolved args)).
Proof.
  induction es as [|e es IH]; intros st dfd Hp.
  - left. intros p Hpre. apply prefix_nil_inv in Hpre as ->. done.
  - pose proof (deferred_step e st dfd) as Hs. rewrite Hp in Hs.
    destruct Hs as [Hs|(args & Hs & Hset)].
    + destruct (IH (step e st) dfd Hs) as [Hall|(es1 & e' & es2 & args & -> & Hbefore & Hset & Hafter)].
      * left. intros [|e0 p] Hpre; [done|].
        pose proof (prefix_cons_inv_1 _ _ _ _ Hpre) as ->.
        apply prefix_cons_inv_2 in Hpre. exact (Hall p Hpre).
      * right. exists (e :: es1), e', es2, args. split; [done|]. split; [|split].
        -- intros [|e0 p] Hpre; [done|].
           pose proof (prefix_cons_inv_1 _ _ _ _ Hpre) as ->.
           apply prefix_cons_inv_2 in Hpre. exact (Hbefore p Hpre).
        -- exact Hset.
        -- intros p Hpre. exact (Hafter p Hpre).
    + right. exists [], e, es, args. split; [done|]. split; [|split].
      * intros p Hpre. apply prefix_nil_inv in Hpre as ->. done.
      * exact Hset.
      * intros p Hpre. exact (resolved_run p (step e st) dfd args Hs).
Qed.

(** C1.  The promise [show] returns is a fresh deferred, pending when
    [show] returns.  In every execution that follows, either it is
    pending at every point, or there is one event that settles it: a
    declined activation, which resolves it with [false], or a successful
    deactivation for a [close] of a session holding this deferred, which
    resolves it with the arguments of that [close].  It is pending at
    every point before that event and resolved with those very arguments
    at every point after it (later successful closes change nothing); it
    is never rejected. *)
Theorem show_promise_settles_once (obj activationData context : value) (st : state)
    (es : list event) :
  let dfd := fst (show obj activationData context st) in
  let st1 := snd (show obj activationData context st) in
  deferreds st !! dfd = None ∧
  deferreds st1 !! dfd = Some Pending ∧
  ((∀ p, p `prefix_of` es → deferreds (run p st1) !! dfd = Some Pending) ∨
   ∃ es1 e es2 args,
     es = es1 ++ e :: es2 ∧
     (∀ p, p `prefix_of` es1 → deferreds (run p st1) !! dfd = Some Pending) ∧
     settles e (run es1 st1) dfd args ∧
     (∀ p, p `prefix_of` es2 →
        deferreds (run (es1 ++ e :: p) st1) !! dfd = Some (Resolved args))).
Proof.
  cbv zeta.
  assert (Hfresh : deferreds st !! fst (show obj activationData context st) = None).
  { unfold show. cbn [fst]. apply lookup_ge_None. lia. }
  assert (Hpend : deferreds (snd (show obj activationData context st))
                    !! fst (show obj activationData context st) = Some Pending).
  { unfold show, ensureDialogInstance, on_instance. cbn [fst snd]. destruct obj; fields; apply lookup_snoc. }
  split; [done|]. split; [done|]. by apply pending_history.
Qed.

Lemma unheld_step e st dfd :
  unheld dfd st →
  unheld dfd (step e st) ∧ deferreds (step e st) !! dfd = deferreds st !! dfd.
Proof.
  intros (HT & HS & HB).
  destruct (step_change e st)
    as [Ht Hd Hi | k Hk Ht Hd Hi | k Hk Ht Hd Hi | t Ht Hd Hi
       | t k0 k dfd' Et Hk0 Hk Ht Hd Hi | t dfd' instance data dc a He Et Ht Hd Hi
       | t k0 dfd' x Et Hk0 Ht Hd Hi Hx | t d sd args He Et Esd Ht Hd Hi];
    unfold unheld; rewrite Ht, Hd, Hi.
  - done.
  - split; [split; [|split]|].
    + intros t' k' H. apply lookup_snoc_Some in H as [H|[-> ->]]; [eauto|].
      rewrite Hk. intros [=]. lia.
    + done.
    + rewrite length_app. simpl. lia.
    + by rewrite lookup_app_l.
  - split; [|done]. split; [|done].
    intros t' k' H. apply lookup_snoc_Some in H as [H|[-> ->]]; [eauto|congruence].
  - split; [|done]. split; [|done].
    intros t' k' H Hk'. eapply lookup_finish in H as [H _]; [|done]. by eapply HT.
  - split; [|done]. split; [|done].
    intros t' k' H Hk'. apply lookup_snoc_Some in H as [H|[_ ->]].
    + eapply lookup_finish in H as [H _]; [|done]. by eapply HT.
    + eapply (HT t k0); [done|]. congruence.
  - assert (Hfar : dfd' ≠ dfd) by (intros ->; by eapply (HT t)).
    split; [|by rewrite list_lookup_alter_ne]. split; [|split; [done|by rewrite length_alter]].
    intros t' k' H Hk'. eapply lookup_finish in H as [H _]; [|done]. by eapply HT.
  - assert (Hfar : dfd' ≠ dfd) by (intros ->; eapply (HT t k0); done).
    split; [|done]. split; [|split; [|done]].
    + intros t' k' H Hk'. eapply lookup_finish in H as [H _]; [|done]. by eapply HT.
    + intros d y Hy. apply lookup_snoc_Some in Hy as [Hy|[_ ->]]; [eauto|congruence].
  - assert (Hfar : promise sd ≠ dfd) by (eapply (HS d (ident sd)); by apply lookup_idents).
    split; [|by rewrite list_lookup_alter_ne]. split; [|split; [done|by rewrite length_alter]].
    intros t' k' H Hk'. eapply lookup_finish in H as [H _]; [|done]. by eapply HT.
Qed.

Lemma unheld_run es st dfd :
  unheld dfd st → deferreds (run es st) !! dfd = deferreds st !! dfd.
Proof.
  revert st. induction es as [|e es IH]; intros st Hu; [done|].
  rewrite run_cons. destruct (unheld_step e st dfd Hu) as [Hu' Heq].
  by rewrite IH, Heq.
Qed.

Lemma finish_unheld st t k dfd :
  consistent st → tasks st !! t = Some k → task_deferred k = Some dfd →
  unheld dfd (finish t st).
Proof.
  intros [HP HO HA HB] Et Hk. split; [|split]; fields.
  - intros t' k' H Hk'. eapply lookup_finish in H as [H Hne]; [|done]. destruct Hne. eauto.
  - intros d x Hx E. eapply (HA t k d x); [done..|]. by rewrite Hk, E.
  - eapply lookup_lt_Some, HP; done.
Qed.

(** C2, amended.  In every execution of the module, when
    [system.acquire] fails for the identifier passed to [show], nothing
    of the plugin runs (only the parked continuation is dropped), and
    the promise [show] returned is pending at every later point: it is
    neither rejected nor resolved. *)
Theorem acquire_failure_leaves_promise_pending (es0 : list event) (t dfd : nat)
    (moduleId : string) (activationData : value) (dialogContext : option nat) :
  tasks (run es0 init) !! t =
    Some (AwaitAcquire dfd moduleId activationData dialogContext) →
  step (Acquired t None) (run es0 init) = finish t (run es0 init) ∧
  ∀ es, deferreds (run (es0 ++ Acquired t None :: es) init) !! dfd = Some Pending.
Proof.
  intros Et. split.
  - cbn [step]. by rewrite Et.
  - intros es. rewrite run_app.
    change (run (Acquired t None :: es) (run es0 init))
      with (run es (step (Acquired t None) (run es0 init))).
    cbn [step]. rewrite Et.
    rewrite unheld_run.
    + fields. eapply (held_pending _ (consistent_run es0)); [exact Et|reflexivity].
    + eapply finish_unheld; [apply consistent_run|exact Et|reflexivity].
Qed.

Lemma acquire_failure_leaves_promise_pending_witness :
  deferreds (run ([Show (VStr "viewmodels/missing") VUndefined VUndefined]
                    ++ Acquired 0 None :: [Show (VObj 1) VUndefined VUndefined;
                                           Activated 1 true])
               init) !! 0%nat = Some Pending.
Proof.
  refine (proj2 (acquire_failure_leaves_promise_pending
                   [Show (VStr "viewmodels/missing") VUndefined VUndefined]
                   0 0 "viewmodels/missing" VUndefined (Some 0%nat) _) _).
  vm_compute. reflexivity.
Defined.

(** C2 as stated fails: after a failed acquire the promise of
    [show('viewmodels/missing')] is pending, not rejected. *)
Lemma acquire_failure_does_not_reject :
  let dfd := fst (show (VStr "viewmodels/missing") VUndefined VUndefined init) in
  let st := run [Show (VStr "viewmodels/missing") VUndefined VUndefined;
                 Acquired 0 None] init in
  deferreds st !! dfd = Some Pending ∧
  ¬ ∃ err, deferreds st !! dfd = Some (Rejected err).
Proof.
  cbv zeta.
  assert (E : deferreds (run [Show (VStr "viewmodels/missing") VUndefined VUndefined;
                              Acquired 0 None] init)
                !! fst (show (VStr "viewmodels/missing") VUndefined VUndefined init)
              = Some Pending) by (vm_compute; reflexivity).
  split; [exact E|]. intros [err H]. rewrite E in H. discriminate.
Qed.

(** ** Mounting and unmounting *)

Lemma deref_Some st c : deref st (Some c) = ctx_store st !! c.
Proof. reflexivity. Qed.

(** A successful activation of an object whose context exists. *)
Lemma on_activated_mounts dfd o c ctx a st :
  ctx_store st !! c = Some ctx →
  let st' := on_activated dfd (VObj o) (Some c) a true st in
  tasks st' = tasks st ∧
  deferreds st' = deferreds st ∧
  contexts st' = contexts st ∧
  ctx_store st' = ctx_store st ∧
  helpers st' = helpers st ∧
  dialog_prop st' = <[o := length (sessions st)]> (dialog_prop st) ∧
  dialogCount st' = js_incr (dialogCount st) ∧
  idents st' = idents st ++ [(VObj o, Some c, a, dfd)] ∧
  length (sessions st') = S (length (sessions st)) ∧
  ∃ rest, effects st' = effects st ++ AddHost (length (sessions st)) :: rest ++
                          [Compose (length (sessions st))].
Proof.
  intros Hc. unfold on_activated. cbv zeta.
  rewrite !deref_Some. fields. rewrite Hc. cbn [createCompositionSettings].
  rewrite deref_Some. fields. rewrite Hc.
  set (s2 := set_settings _ _ _).
  destruct (addHost_frame ctx (length (sessions st)) s2)
    as (Ht & Hd & Hi & Hp & Hn & Hcx & Hcs & Hh).
  assert (He : ∃ rest, effects (addHost ctx (length (sessions st)) s2)
                       = effects st ++ AddHost (length (sessions st)) :: rest).
  { unfold addHost. destruct (dc_builtin_host ctx); subst s2; fields.
    - destruct (isOpen _); fields.
      + exists []. reflexivity.
      + exists [LockScroll]. by rewrite <- app_assoc.
    - exists []. reflexivity. }
  destruct He as [rest He].
  assert (Hid : idents (emit (Compose (length (sessions st)))
                  (set_dialogCount js_incr (addHost ctx (length (sessions st)) s2)))
                = idents st ++ [(VObj o, Some c, a, dfd)]).
  { unfold idents. fields. rewrite Hi. subst s2. fields.
    rewrite fmap_alter_same by done. by rewrite fmap_app. }
  split; [|split; [|split; [|split; [|split; [|split; [|split; [|split; [|split]]]]]]]].
  - fields. by rewrite Ht.
  - fields. by rewrite Hd.
  - fields. by rewrite Hcx.
  - fields. by rewrite Hcs.
  - fields. by rewrite Hh.
  - fields. by rewrite Hp.
  - fields. by rewrite Hn.
  - exact Hid.
  - apply (f_equal length) in Hid. unfold idents in Hid.
    rewrite length_app, !length_fmap in Hid. simpl in Hid. fields.
    rewrite Hid. lia.
  - exists rest. fields. rewrite He. by rewrite <- app_assoc.
Qed.

(** A successful deactivation for a session of an object whose context
    exists. *)
Lemma on_deactivated_unmounts d args sd o c ctx st :
  sessions st !! d = Some sd → owner sd = VObj o → context sd = Some c →
  ctx_store st !! c = Some ctx →
  let st' := on_deactivated d args true st in
  tasks st' = tasks st ∧
  sessions st' = sessions st ∧
  contexts st' = contexts st ∧
  ctx_store st' = ctx_store st ∧
  helpers st' = helpers st ∧
  currentZIndex st' = currentZIndex st ∧
  dialog_prop st' = delete o (dialog_prop st) ∧
  dialogCount st' = js_decr (dialogCount st) ∧
  deferreds st' = alter (resolve args) (promise sd) (deferreds st) ∧
  ∃ rest, effects st' = effects st ++ RemoveHost d :: rest ++
                          [ResolveCall (promise sd) args].
Proof.
  intros Hsd Ho Hc Hctx. unfold on_deactivated. cbv zeta.
  rewrite Hsd, Hc, deref_Some. fields. rewrite Hctx, Ho.
  set (s1 := removeHost ctx d _).
  destruct (removeHost_frame ctx d (set_dialogCount js_decr st))
    as (Ht & Hd & Hs & Hp & Hn & Hz & Hcx & Hcs & Hh).
  fold s1 in Ht, Hd, Hs, Hp, Hn, Hz, Hcx, Hcs, Hh.
  assert (He : ∃ rest, effects s1 = effects st ++ RemoveHost d :: rest).
  { subst s1. unfold removeHost. destruct (dc_builtin_host ctx); fields.
    - destruct (isOpen _); fields.
      + exists []. reflexivity.
      + exists [UnlockScroll]. by rewrite <- app_assoc.
    - exists []. reflexivity. }
  destruct He as [rest He].
  fields. rewrite Ht, Hd, Hs, Hp, Hn, Hz, Hcx, Hcs, Hh, He. fields.
  repeat split; try done. exists rest. by rewrite <- app_assoc.
Qed.

(** [show] of an object in a context that exists, followed by a
    successful activation. *)
Lemma show_succeeds (st : state) (o c : nat) (ctx : DialogContext)
    (activationData context : value) :
  getContext context st = Some c → ctx_store st !! c = Some ctx →
  let dfd := fst (show (VObj o) activationData context st) in
  let st2 := run [Show (VObj o) activationData context;
                  Activated (length (tasks st)) true] st in
  dfd = length (deferreds st) ∧
  tasks st2 = tasks st ++ [Done] ∧
  deferreds st2 = deferreds st ++ [Pending] ∧
  contexts st2 = contexts st ∧
  ctx_store st2 = ctx_store st ∧
  helpers st2 = helpers st ∧
  dialog_prop st2 = <[o := length (sessions st)]> (dialog_prop st) ∧
  dialogCount st2 = js_incr (dialogCount st) ∧
  idents st2 = idents st ++ [(VObj o, Some c, activators st, dfd)] ∧
  ∃ rest, effects st2 = effects st ++ AddHost (length (sessions st)) :: rest ++
                          [Compose (length (sessions st))].
Proof.
  intros Hg Hctx dfd st2.
  assert (E : st2 = on_activated dfd (VObj o) (Some c) (activators st) true
                      (finish (length (tasks st))
                         (snd (show (VObj o) activationData context st)))).
  { subst st2 dfd. cbn [run fold_left step].
    unfold getContext in Hg. unfold show, ensureDialogInstance, on_instance.
    cbn [fst snd isString]. fields.
    by rewrite lookup_snoc, Hg. }
  rewrite E. clear E st2.
  set (s := finish _ _).
  destruct (on_activated_mounts dfd o c ctx (activators st) s Hctx)
    as (Ht & Hd & Hcx & Hcs & Hh & Hp & Hn & Hi & _ & rest & He).
  rewrite Ht, Hd, Hcx, Hcs, Hh, Hp, Hn, Hi, He. subst s dfd.
  unfold idents, show, ensureDialogInstance, on_instance. cbn [isString]. fields.
  repeat split; try done.
  - by rewrite insert_snoc.
  - by exists rest.
Qed.

(** [close] of an object carrying a session of a context that exists,
    followed by a successful deactivation. *)
Lemma close_succeeds (st : state) (o d c : nat) (sd : Dialog) (ctx : DialogContext)
    (args : list value) :
  dialog_prop st !! o = Some d →
  sessions st !! d = Some sd →
  owner sd = VObj o →
  context sd = Some c →
  ctx_store st !! c = Some ctx →
  let st2 := run [Close (VObj o) args; Deactivated (length (tasks st)) true] st in
  tasks st2 = tasks st ++ [Done] ∧
  sessions st2 = sessions st ∧
  contexts st2 = contexts st ∧
  ctx_store st2 = ctx_store st ∧
  helpers st2 = helpers st ∧
  currentZIndex st2 = currentZIndex st ∧
  dialog_prop st2 = delete o (dialog_prop st) ∧
  dialogCount st2 = js_decr (dialogCount st) ∧
  deferreds st2 = alter (resolve args) (promise sd) (deferreds st) ∧
  ∃ rest, effects st2 = effects st ++ RemoveHost d :: rest ++
                          [ResolveCall (promise sd) args].
Proof.
  intros Ho Hsd Hown Hc Hctx st2.
  assert (E : st2 = on_deactivated d args true
                      (finish (length (tasks st)) (park (AwaitDeactivate d args) st))).
  { subst st2. cbn [run fold_left step]. unfold close, getDialog, dialog_close.
    cbn [truthy]. rewrite Ho, Hsd. fields. by rewrite lookup_snoc. }
  rewrite E. clear E st2.
  set (s := finish _ _).
  destruct (on_deactivated_unmounts d args sd o c ctx s Hsd Hown Hc Hctx)
    as (Ht & Hs & Hcx & Hcs & Hh & Hz & Hdp & Hn & Hd & rest & He).
  rewrite Ht, Hs, Hcx, Hcs, Hh, Hz, Hdp, Hn, Hd, He. subst s. fields.
  repeat split; try done.
  - by rewrite insert_snoc.
  - by exists rest.
Qed.

(** ** The registry *)

Lemma step_registry e st :
  (∀ c, e ≠ NewContext c) → (∀ name c, e ≠ AddContext name c) →
  contexts (step e st) = contexts st ∧
  ctx_store (step e st) = ctx_store st ∧
  helpers (step e st) = helpers st.
Proof.
  intros H1 H2.
  destruct e as [c|name dc|obj data ctx|obj rest|d args| |t result|t b|t b];
    cbn [step].
  - by destruct (H1 c).
  - by destruct (H2 name dc).
  - unfold show, ensureDialogInstance, on_instance. cbn [snd]. destruct obj; fields; done.
  - unfold close, dialog_close. destruct (getDialog obj st); [|done].
    destruct (sessions st !! _); done.
  - unfold dialog_close. destruct (sessions st !! _); done.
  - done.
  - destruct (tasks st !! t) as [[| | |]|]; try done. destruct result; done.
  - destruct (tasks st !! t) as [[|dfd instance data dc a| |]|]; try done.
    destruct b; [|done].
    by destruct (on_activated_frame dfd instance dc a (finish t st))
      as (_ & _ & ? & ? & ? & _).
  - destruct (tasks st !! t) as [[| |d args|]|]; try done.
    by destruct (on_deactivated_frame d args b (finish t st))
      as (_ & _ & ? & ? & ? & _).
Qed.

Lemma getContext_falsy v st : truthy v = false → getContext v st = contexts st !! "default".
Proof. intros H. unfold getContext, js_or. by rewrite H. Qed.

Lemma registry_sound_step e st : registry_sound st → registry_sound (step e st).
Proof.
  intros [Href Hdef].
  destruct e as [c|name dc|obj data cx|obj rest|d args| |t r|t b|t b].
  3-9: match goal with
       | |- registry_sound (step ?e ?s) =>
         destruct (step_registry e s ltac:(done) ltac:(done)) as (Hc & Hs & _);
         unfold registry_sound; rewrite Hc, Hs; done
       end.
  - cbn [step]. split; fields; [|done].
    intros name c' H. destruct (Href name c' H) as [x Hx].
    exists x. by apply lookup_app_l_Some.
  - cbn [step]. case_decide as Hlt; [|done]. unfold addContext. split; fields.
    + destruct (lookup_lt_is_Some_2 _ _ Hlt) as [ctx0 ->].
      intros name' c' H. apply lookup_lt_is_Some. rewrite length_insert.
      apply lookup_insert_Some in H as [[_ <-]|[_ H]]; [done|].
      apply lookup_lt_is_Some. eauto.
    + destruct (decide (name = "default")) as [->|Hne].
      * rewrite lookup_insert_eq. eauto.
      * by rewrite lookup_insert_ne.
Qed.

Lemma registry_sound_run es : registry_sound (run es init).
Proof.
  apply run_invariant; [intros; by apply registry_sound_step|].
  assert (E : contexts init = {["default" := 0%nat]}) by (vm_compute; reflexivity).
  split; rewrite E.
  - intros name c H. apply lookup_singleton_Some in H as [_ <-].
    vm_compute. eauto.
  - rewrite lookup_singleton_eq. eauto.
Qed.

(** ** Declined activation *)

(** C3.  In every execution of the module, when the activator declines
    the activation requested by a [show], the promise of that [show] is
    resolved with [false]; the open-dialog counter and [isOpen] are as
    before, no [__dialog__] property and no session changes (so
    [getDialog] answers as before for every object), the z-index counter
    is untouched, and the only thing done to a collaborator is the call
    of [resolve]: [addHost] and the compositor are not called. *)
Theorem activation_declined_resolves_false (es0 : list event) (t dfd : nat)
    (instance activationData : value) (dialogContext : option nat)
    (dialogActivator : nat) :
  tasks (run es0 init) !! t =
    Some (AwaitActivate dfd instance activationData dialogContext dialogActivator) →
  let st := run es0 init in
  let st' := step (Activated t false) st in
  deferreds st' !! dfd = Some (Resolved [VBool false]) ∧
  dialogCount st' = dialogCount st ∧
  isOpen st' = isOpen st ∧
  dialog_prop st' = dialog_prop st ∧
  (∀ obj, getDialog obj st' = getDialog obj st) ∧
  sessions st' = sessions st ∧
  currentZIndex st' = currentZIndex st ∧
  contexts st' = contexts st ∧
  effects st' = effects st ++ [ResolveCall dfd [VBool false]] ∧
  (∀ d, AddHost d ∈ effects st' → AddHost d ∈ effects st).
Proof.
  intros Et st st'. subst st st'. cbn [step]. rewrite Et.
  rewrite on_activated_declined.
  pose proof (held_pending _ (consistent_run es0) _ _ _ Et eq_refl) as Hp.
  fields. repeat split; try done.
  - by rewrite list_lookup_alter_eq, Hp.
  - intros d Hin. apply elem_of_app in Hin as [Hin|Hin]; [done|].
    apply list_elem_of_singleton in Hin. discriminate.
Qed.

Lemma activation_declined_resolves_false_witness :
  deferreds (run [Show (VObj 1) VUndefined VUndefined; Activated 0 false] init) !! 0%nat
    = Some (Resolved [VBool false]) ∧
  dialogCount (run [Show (VObj 1) VUndefined VUndefined; Activated 0 false] init) = 0.
Proof.
  assert (H : tasks (run [Show (VObj 1) VUndefined VUndefined] init) !! 0%nat
              = Some (AwaitActivate 0 (VObj 1) VUndefined (Some 0%nat) 0))
    by (vm_compute; reflexivity).
  destruct (activation_declined_resolves_false _ _ _ _ _ _ _ H) as (H1 & H2 & _).
  split; [exact H1|exact H2].
Defined.

(** ** Rejected deactivation *)

(** C4.  For a session [d] attached to its owner [o], shown in a context
    that exists, with its promise pending: a [close] whose deactivation
    is rejected changes nothing but the slot of its own continuation
    (counter, effects, [__dialog__], sessions and deferreds are as
    before: no decrement, no [removeHost], session attached, promise
    pending); a following [close] whose deactivation succeeds decrements
    the counter, calls [removeHost] for the session, removes the
    [__dialog__] property and resolves the promise with the arguments of
    that second [close]. *)
Theorem deactivation_rejected_keeps_dialog_open (st : state) (o d c : nat)
    (sd : Dialog) (ctx : DialogContext) (args1 args2 : list value) :
  dialog_prop st !! o = Some d →
  sessions st !! d = Some sd →
  owner sd = VObj o →
  context sd = Some c →
  ctx_store st !! c = Some ctx →
  deferreds st !! promise sd = Some Pending →
  let st1 := run [Close (VObj o) args1; Deactivated (length (tasks st)) false] st in
  let st2 := run [Close (VObj o) args2; Deactivated (length (tasks st1)) true] st1 in
  (st1 = set_tasks (λ l, l ++ [Done]) st ∧
   dialogCount st1 = dialogCount st ∧
   effects st1 = effects st ∧
   getDialog (VObj o) st1 = Some d ∧
   deferreds st1 !! promise sd = Some Pending) ∧
  (dialogCount st2 = js_decr (dialogCount st) ∧
   (∃ rest, effects st2 = effects st ++ RemoveHost d :: rest ++
                            [ResolveCall (promise sd) args2]) ∧
   getDialog (VObj o) st2 = None ∧
   deferreds st2 !! promise sd = Some (Resolved args2)).
Proof.
  intros Ho Hsd Hown Hc Hctx Hp st1.
  assert (E1 : st1 = set_tasks (λ l, l ++ [Done]) st).
  { subst st1. cbn [run fold_left step]. unfold close, getDialog, dialog_close.
    cbn [truthy]. rewrite Ho, Hsd. fields. rewrite lookup_snoc.
    unfold on_deactivated. fields. rewrite Hsd. fields.
    unfold finish, park, set_tasks. fields. by rewrite insert_snoc. }
  intros st2. split.
  - rewrite E1. fields. unfold getDialog. cbn [truthy]. fields. done.
  - subst st2.
    assert (Hl : length (tasks st1) = length (tasks (set_tasks (λ l, l ++ [Done]) st)))
      by (by rewrite E1).
    rewrite Hl, E1. clear Hl.
    set (s := set_tasks _ st).
    destruct (close_succeeds s o d c sd ctx args2 Ho Hsd Hown Hc Hctx)
      as (_ & _ & _ & _ & _ & _ & Hdp & Hn & Hd & rest & He).
    unfold getDialog. cbn [truthy]. rewrite Hdp, Hn, Hd, He. subst s. fields.
    split; [done|]. split; [by exists rest|]. split.
    + apply lookup_delete_eq.
    + by rewrite list_lookup_alter_eq, Hp.
Qed.

Lemma deactivation_rejected_keeps_dialog_open_witness :
  let st := run [Show (VObj 1) VUndefined VUndefined; Activated 0 true] init in
  let st1 := run [Close (VObj 1) [VStr "first"]; Deactivated 1 false] st in
  let st2 := run [Close (VObj 1) [VStr "second"]; Deactivated 2 true] st1 in
  (getDialog (VObj 1) st1 = Some 0%nat ∧ deferreds st1 !! 0%nat = Some Pending) ∧
  (getDialog (VObj 1) st2 = None ∧
   deferreds st2 !! 0%nat = Some (Resolved [VStr "second"])).
Proof.
  cbv zeta.
  set (st := run [Show (VObj 1) VUndefined VUndefined; Activated 0 true] init).
  assert (H1 : dialog_prop st !! 1%nat = Some 0%nat) by (vm_compute; reflexivity).
  assert (H2 : sessions st !! 0%nat =
               Some (mkDialog (VObj 1) (Some 0%nat) 0 0
                       (Some (mkSettings (VObj 1) false false true))
                       (Some 1052) (Some 1051))) by (vm_compute; reflexivity).
  assert (H3 : ctx_store st !! 0%nat = Some (mkContext (VStr "default") true false true))
    by (vm_compute; reflexivity).
  assert (H4 : deferreds st !! 0%nat = Some Pending) by (vm_compute; reflexivity).
  destruct (deactivation_rejected_keeps_dialog_open st 1 0 0 _ _
              [VStr "first"] [VStr "second"] H1 H2 eq_refl eq_refl H3 H4)
    as ((_ & _ & _ & Hg1 & Hp1) & (_ & _ & Hg2 & Hp2)).
  split; split; [exact Hg1|exact Hp1|exact Hg2|exact Hp2].
Defined.

(** ** Show, then close *)

(** [show], a successful activation, [close] and a successful
    deactivation, for an object and a context name that resolves to an
    object. *)
Lemma show_then_close_resolves_in (st : state) (o c : nat) (ctx : DialogContext)
    (activationData name result : value) :
  getContext name st = Some c →
  ctx_store st !! c = Some ctx →
  let dfd := fst (show (VObj o) activationData name st) in
  let st2 := run [Show (VObj o) activationData name;
                  Activated (length (tasks st)) true] st in
  let st4 := run [Close (VObj o) [result];
                  Deactivated (length (tasks st2)) true] st2 in
  getDialog (VObj o) st2 = Some (length (sessions st)) ∧
  deferreds st2 !! dfd = Some Pending ∧
  deferreds st4 !! dfd = Some (Resolved [result]) ∧
  getDialog (VObj o) st4 = None.
Proof.
  intros Hg Hctx dfd st2 st4.
  destruct (show_succeeds st o c ctx activationData name Hg Hctx)
    as (Hdfd & Ht & Hd & _ & Hcs & _ & Hp & _ & Hi & _).
  fold dfd in Hdfd, Hi. fold st2 in Ht, Hd, Hcs, Hp, Hi.
  assert (Hsd : ∃ sd, sessions st2 !! length (sessions st) = Some sd ∧
                      ident sd = (VObj o, Some c, activators st, dfd)).
  { assert (H : idents st2 !! length (sessions st)
                = Some (VObj o, Some c, activators st, dfd)).
    { rewrite Hi. unfold idents. rewrite <- (length_fmap ident). apply lookup_snoc. }
    unfold idents in H. rewrite list_lookup_fmap in H.
    destruct (sessions st2 !! length (sessions st)) as [sd|]; [|done].
    exists sd. split; [done|]. simpl in H. congruence. }
  destruct Hsd as (sd & Hsd & Hid).
  assert (Hown : owner sd = VObj o) by (by injection Hid).
  assert (Hc : context sd = Some c) by (by injection Hid).
  assert (Hpr : promise sd = dfd) by (by injection Hid).
  assert (Ho : dialog_prop st2 !! o = Some (length (sessions st)))
    by (rewrite Hp; apply lookup_insert_eq).
  assert (Hctx2 : ctx_store st2 !! c = Some ctx) by (by rewrite Hcs).
  destruct (close_succeeds st2 o _ c sd ctx [result] Ho Hsd Hown Hc Hctx2)
    as (_ & _ & _ & _ & _ & _ & Hp4 & _ & Hd4 & _).
  fold st4 in Hp4, Hd4.
  assert (Hpend : deferreds st2 !! dfd = Some Pending)
    by (rewrite Hd, Hdfd; apply lookup_snoc).
  unfold getDialog. cbn [truthy]. split; [done|]. split; [done|]. split.
  - by rewrite Hd4, Hpr, list_lookup_alter_eq, Hpend.
  - rewrite Hp4. apply lookup_delete_eq.
Qed.

(** C5.  In every execution of the module, for every object [o]:
    after [show(owner)], a successful activation, [close(owner, result)]
    and a successful deactivation, the promise [show] returned is
    resolved with [result] and [getDialog(owner)] is [undefined].  In
    between, [getDialog(owner)] is the new session and the promise is
    pending. *)
Theorem show_then_close_resolves (es0 : list event) (o : nat)
    (activationData result : value) :
  let st := run es0 init in
  let dfd := fst (show (VObj o) activationData VUndefined st) in
  let st2 := run [Show (VObj o) activationData VUndefined;
                  Activated (length (tasks st)) true] st in
  let st4 := run [Close (VObj o) [result];
                  Deactivated (length (tasks st2)) true] st2 in
  getDialog (VObj o) st2 = Some (length (sessions st)) ∧
  deferreds st2 !! dfd = Some Pending ∧
  deferreds st4 !! dfd = Some (Resolved [result]) ∧
  getDialog (VObj o) st4 = None.
Proof.
  intros st.
  destruct (registry_sound_run es0) as [Hreg [c Hc]]. fold st in Hreg, Hc.
  destruct (Hreg "default" c Hc) as [ctx Hctx].
  apply (show_then_close_resolves_in st o c ctx activationData VUndefined result);
    [|done].
  by rewrite getContext_falsy.
Qed.

(** The same with ['X'] for the result, from the loaded module. *)
Lemma show_then_close_resolves_witness :
  let st4 := run [Show (VObj 1) VUndefined VUndefined; Activated 0 true;
                  Close (VObj 1) [VStr "X"]; Deactivated 1 true] init in
  deferreds st4 !! 0%nat = Some (Resolved [VStr "X"]) ∧
  getDialog (VObj 1) st4 = None.
Proof.
  destruct (show_then_close_resolves [] 1 VUndefined (VStr "X")) as (_ & _ & H3 & H4).
  vm_compute in H3, H4. vm_compute. split; [exact H3|exact H4].
Defined.

(** ** Closing what is not open *)

(** C9.  [close(obj, ...)] for an [obj] with no session ([getDialog]
    answers [undefined]) leaves the state as it is, so nothing is
    thrown; and [getDialog] is total: for every value it answers the
    session in the [__dialog__] property of an object, and [undefined]
    for an object without one and for anything that is not an object. *)
Theorem close_without_session_is_noop (obj : value) (rest : list value) (st : state) :
  (getDialog obj st = None →
   close obj rest st = st ∧ step (Close obj rest) st = st ∧
   effects (close obj rest st) = effects st) ∧
  getDialog obj st = match obj with
                     | VObj o => dialog_prop st !! o
                     | _ => None
                     end.
Proof.
  split.
  - intros H. cbn [step]. unfold close. by rewrite H.
  - unfold getDialog. destruct obj as [| |[]| |s|]; try done.
    + cbn [truthy]. by destruct (negb _).
    + cbn [truthy]. by destruct (negb _).
Qed.

Lemma close_without_session_is_noop_witness :
  close (VObj 4) [VStr "X"] init = init ∧ close VUndefined [] init = init.
Proof.
  split.
  - refine (proj1 (proj1 (close_without_session_is_noop (VObj 4) [VStr "X"] init) _)).
    vm_compute. reflexivity.
  - refine (proj1 (proj1 (close_without_session_is_noop VUndefined [] init) _)).
    vm_compute. reflexivity.
Defined.

(** ** The helper installed by addContext *)

Lemma code_points_cons u l :
  high_surrogate u = false → code_points (u :: l) = u :: code_points l.
Proof. intros H. destruct l as [|v l]; cbn [code_points]; by rewrite ?H. Qed.

Lemma code_points_nil l : code_points l = [] → l = [].
Proof.
  destruct l as [|u [|v l]]; [done|done|]. cbn [code_points].
  by destruct (high_surrogate u && low_surrogate v).
Qed.

Lemma utf8_not_nil cp : utf8 cp ≠ [].
Proof.
  unfold utf8. destruct (cp <? 128)%N; [done|].
  destruct (cp <? 2048)%N; [done|]. by destruct (cp <? 65536)%N.
Qed.

Lemma of_units_nil l : of_units l = EmptyString → l = [].
Proof.
  unfold of_units. intros H. apply code_points_nil.
  destruct (code_points l) as [|cp cps]; [done|]. cbn [flat_map] in H.
  pose proof (utf8_not_nil cp) as Hcp.
  destruct (utf8 cp) as [|b bs]; [done|]. discriminate.
Qed.

Lemma units_of_code_point_not_nil cp : units_of_code_point cp ≠ [].
Proof.
  unfold units_of_code_point. destruct (cp <? 65536)%N; [done|].
  by destruct (cp <? 1114112)%N.
Qed.

Lemma lead_continues b : (lead b).1 = [] → (lead b).2 ≠ None.
Proof.
  unfold lead. destruct (b <? 128)%N; [done|].
  destruct (_ && _); [done|]. destruct (_ && _); [done|]. by destruct (_ && _).
Qed.

Lemma units_from_nil s : ∀ pending,
  units_from pending s = [] → s = EmptyString ∧ pending = None.
Proof.
  induction s as [|c rest IH]; intros pending H.
  - by destruct pending.
  - exfalso. cbn [units_from] in H. cbv zeta in H.
    destruct pending as [[acc more]|].
    + destruct (_ && _).
      * destruct more as [|more'].
        -- apply app_eq_nil in H as [H _]. by apply units_of_code_point_not_nil in H.
        -- by destruct (IH _ H).
      * done.
    + apply app_eq_nil in H as [H1 H2].
      destruct (IH _ H2) as [_ H3]. by apply lead_continues in H1.
Qed.

Lemma units_nil s : units s = [] → s = EmptyString.
Proof. intros H. by destruct (units_from_nil s None H). Qed.

Lemma upper_special_not_nil :
  forallb (λ p : N * list N, negb (Nat.eqb (length p.2) 0)) upper_special = true.
Proof. vm_compute. reflexivity. Qed.

Lemma upper_code_point_not_nil cp : upper_code_point cp ≠ [].
Proof.
  unfold upper_code_point.
  destruct (List.find _ upper_special) as [p|] eqn:E.
  - apply find_some in E as [Hin _].
    pose proof upper_special_not_nil as H.
    rewrite forallb_forall in H. specialize (H p Hin).
    by destruct (p.2).
  - by destruct (List.find _ upper_runs).
Qed.

Lemma toUpperCase_not_nil u : toUpperCase [u] ≠ [].
Proof.
  unfold toUpperCase. cbn [code_points flat_map]. rewrite app_nil_r.
  pose proof (upper_code_point_not_nil u) as H.
  destruct (upper_code_point u) as [|cp cps]; [done|]. cbn [flat_map].
  pose proof (units_of_code_point_not_nil cp) as H'.
  by destruct (units_of_code_point cp).
Qed.

(** The property name is ['show'] followed by the name with its first
    code unit in upper case. *)
Lemma helperName_prefix name :
  helperName name =
    "show" +:+ of_units (toUpperCase (substr (units name) 0 1)
                           ++ substr_from (units name) 1).
Proof.
  unfold helperName.
  change (units "show") with [115; 104; 111; 119]%N.
  unfold of_units. cbn [app].
  rewrite !code_points_cons by reflexivity. reflexivity.
Qed.

Lemma helperName_show name : helperName name = "show" ↔ name = EmptyString.
Proof.
  split; [|intros ->; vm_compute; reflexivity].
  rewrite helperName_prefix. intros H.
  assert (E : of_units (toUpperCase (substr (units name) 0 1)
                          ++ substr_from (units name) 1) = EmptyString).
  { by destruct (of_units _). }
  apply of_units_nil in E. apply app_eq_nil in E as [E1 E2].
  apply units_nil.
  destruct (units name) as [|u l]; [done|].
  unfold substr in E1. cbn in E1. by apply toUpperCase_not_nil in E1.
Qed.

Lemma truthy_str name : name ≠ EmptyString → truthy (VStr name) = true.
Proof. intros H. cbn [truthy]. by destruct name. Qed.

Lemma call_helper depth name prop obj activationData third st :
  helpers st !! prop = Some name →
  call (S depth) prop obj activationData third st =
  call depth "show" obj activationData (VStr name) st.
Proof. intros H. cbn [call]. by rewrite H. Qed.

Lemma call_show depth obj activationData context st :
  helpers st !! "show" = None →
  call (S depth) "show" obj activationData context st =
  Returns (fst (show obj activationData context st))
          (snd (show obj activationData context st)).
Proof. intros H. cbn [call]. rewrite H. by destruct (show _ _ _ _). Qed.


Lemma call_hidden st :
  helpers st !! "show" = Some EmptyString →
  ∀ depth prop obj activationData context dfd s,
    call depth prop obj activationData context st ≠ Returns dfd s.
Proof.
  intros H.
  assert (Hshow : ∀ depth obj activationData context,
            call depth "show" obj activationData context st = NoReturn).
  { induction depth as [|depth IH]; intros; [done|]. cbn [call]. rewrite H. apply IH. }
  intros [|depth] prop obj activationData context dfd s; [done|]. cbn [call].
  destruct (helpers st !! prop) as [name|] eqn:E; [by rewrite Hshow|].
  destruct (String.eqb_spec prop "show") as [->|_]; [congruence|done].
Qed.





(** ** Names in the registry *)

Lemma obeys_invariant (ok : state → event → Prop) (P : state → Prop) :
  (∀ s e, P s → ok s e → P (step e s)) →
  ∀ es st, P st → obeys ok es st → P (run es st).
Proof.
  intros Hstep es. induction es as [|e es IH]; intros st Hst Hok; [done|].
  destruct Hok as [Hok Hrest]. rewrite run_cons. apply IH; [|done]. by apply Hstep.
Qed.

Lemma names_match_step e st :
  names_match st → registers_unshared st e → names_match (step e st).
Proof.
  intros Hnm Hok.
  destruct e as [c|name dc|obj data cx|obj rest|d args| |t r|t b|t b].
  3-9: match goal with
       | |- names_match (step ?e ?s) =>
         destruct (step_registry e s ltac:(done) ltac:(done)) as (Hc & Hs & _);
         unfold names_match; rewrite Hc, Hs; exact Hnm
       end.
  - intros name c' H. cbn [step] in *. fields.
    destruct (Hnm name c' H) as (ctx & Hctx & Hname).
    exists ctx. split; [by apply lookup_app_l_Some|done].
  - cbn [step registers_unshared] in *. case_decide as Hlt; [|done].
    intros name' c' H. unfold addContext in *. fields.
    destruct (lookup_lt_is_Some_2 _ _ Hlt) as [ctx0 Hctx0]. rewrite Hctx0.
    destruct (decide (name = name')) as [<-|Hne].
    + rewrite lookup_insert_eq in H. injection H as <-.
      eexists. split; [by apply list_lookup_insert_eq|done].
    + rewrite lookup_insert_ne in H by done.
      destruct (decide (dc = c')) as [->|Hnc].
      * destruct Hne. symmetry. by apply Hok.
      * rewrite list_lookup_insert_ne by done. by apply Hnm.
Qed.

Lemma names_match_empty : names_match empty_state.
Proof. intros name c H. cbn in H. by rewrite lookup_empty in H. Qed.

(** C10, amended.  [addContext(name, ctx)] stores [ctx] under [name]
    after overwriting its [name] property with [name], whatever it was.
    In every execution in which [addContext] is never given an object
    that is registered under another name at that time, every
    registered object carries its key: for every non-empty registered
    [n], [getContext(n).name] is [n].  [getContext] of an omitted or
    falsy name (the empty string included) is the entry under
    ['default']. *)
Theorem getContext_name_matches_key (es : list event) :
  obeys registers_unshared es init →
  let st := run es init in
  (∀ n c, contexts st !! n = Some c →
     ∃ ctx, ctx_store st !! c = Some ctx ∧ dc_name ctx = VStr n) ∧
  (∀ n, n ≠ EmptyString → getContext (VStr n) st = contexts st !! n) ∧
  (∀ n, n ≠ EmptyString → is_Some (contexts st !! n) →
     context_name (VStr n) st = Some (VStr n)) ∧
  (∀ v, truthy v = false → getContext v st = contexts st !! "default") ∧
  (∀ n c ctx, ctx_store st !! c = Some ctx →
     contexts (addContext n c st) !! n = Some c ∧
     ∃ ctx', ctx_store (addContext n c st) !! c = Some ctx' ∧ dc_name ctx' = VStr n).
Proof.
  intros Hok st.
  assert (Hnm : names_match st).
  { subst st. revert Hok. apply (obeys_invariant registers_unshared names_match).
    - intros s e. apply names_match_step.
    - unfold init. cbn [run fold_left].
      apply names_match_step; [|by intros other H; vm_compute in H].
      apply names_match_step; [apply names_match_empty|done]. }
  assert (Hget : ∀ n, n ≠ EmptyString → getContext (VStr n) st = contexts st !! n).
  { intros n Hn. unfold getContext, js_or. by rewrite truthy_str. }
  split; [exact Hnm|]. split; [exact Hget|]. split; [|split].
  - intros n Hn [c Hc]. unfold context_name. rewrite Hget, Hc by done.
    destruct (Hnm n c Hc) as (ctx & Hctx & Hname).
    change (dc_name <$> ctx_store st !! c = Some (VStr n)).
    rewrite Hctx. simpl. by rewrite Hname.
  - intros v Hv. by apply getContext_falsy.
  - intros n c ctx Hctx. unfold addContext. fields. rewrite Hctx.
    split; [apply lookup_insert_eq|].
    eexists. split; [apply list_lookup_insert_eq; by eapply lookup_lt_Some|reflexivity].
Qed.

Lemma getContext_name_matches_key_witness :
  let st := run [NewContext (mkContext (VStr "other") false false false);
                 AddContext "confirm" 1] init in
  getContext (VStr "confirm") st = Some 1%nat ∧
  dc_name <$> ctx_store st !! 1%nat = Some (VStr "confirm") ∧
  getContext VUndefined st = Some 0%nat.
Proof.
  cbv zeta.
  set (es := [NewContext (mkContext (VStr "other") false false false);
              AddContext "confirm" 1]).
  assert (Hok : obeys registers_unshared es init).
  { subst es. cbn [obeys registers_unshared]. split; [done|]. split; [|done].
    intros other H.
    assert (E : contexts (step (NewContext (mkContext (VStr "other") false false false)) init)
                = {["default" := 0%nat]}) by (vm_compute; reflexivity).
    rewrite E in H. apply lookup_singleton_Some in H as [_ H]. discriminate. }
  destruct (getContext_name_matches_key es Hok) as (H1 & H2 & _ & H3 & _).
  assert (Hc : contexts (run es init) !! "confirm" = Some 1%nat) by (vm_compute; reflexivity).
  destruct (H1 "confirm" 1%nat Hc) as (ctx & Hctx & Hname).
  split; [|split].
  - rewrite H2 by discriminate. exact Hc.
  - rewrite Hctx. simpl. by rewrite Hname.
  - rewrite H3 by reflexivity. vm_compute. reflexivity.
Defined.

(** C10 as stated fails in two ways.  An object registered under ['a']
    and then under ['b'] is found under ['a'] with the name ['b']; and a
    context registered under the empty name is not what [getContext('')]
    answers: that is the default context, named ['default']. *)
Lemma getContext_name_differs_from_key :
  let shared := run [NewContext (mkContext VUndefined false false false);
                     AddContext "a" 1; AddContext "b" 1] init in
  let unnamed := run [NewContext (mkContext VUndefined false false false);
                      AddContext EmptyString 1] init in
  (contexts shared !! "a" = Some 1%nat ∧
   context_name (VStr "a") shared = Some (VStr "b") ∧
   context_name (VStr "a") shared ≠ Some (VStr "a")) ∧
  (contexts unnamed !! EmptyString = Some 1%nat ∧
   context_name (VStr EmptyString) unnamed = Some (VStr "default") ∧
   context_name (VStr EmptyString) unnamed ≠ Some (VStr EmptyString)).
Proof. vm_compute. repeat split; discriminate. Qed.

(** ** What a successful activation leaves *)

Lemma alter_snoc {A} (f : A → A) (l : list A) (x : A) :
  alter f (length l) (l ++ [x]) = l ++ [f x].
Proof. rewrite alter_app_r_alt by lia. by rewrite Nat.sub_diag. Qed.

Lemma on_activated_nullish dfd instance dc a st :
  instance = VUndefined ∨ instance = VNull →
  on_activated dfd instance dc a true st = emit Throw st.
Proof. by intros [-> | ->]. Qed.

Lemma on_activated_exact dfd instance dc a st :
  instance ≠ VUndefined → instance ≠ VNull →
  let st' := on_activated dfd instance dc a true st in
  let n := length (sessions st) in
  sessions st' = sessions st ++ [new_session dfd instance dc a st] ∧
  currentZIndex st' =
    match deref st dc with
    | Some c => if dc_builtin_host c then js_incr (js_incr (currentZIndex st))
                else currentZIndex st
    | None => currentZIndex st
    end ∧
  dialogCount st' =
    match deref st dc with
    | Some _ => js_incr (dialogCount st)
    | None => dialogCount st
    end ∧
  effects st' = effects st ++
    match deref st dc with
    | Some c =>
      AddHost n :: (if dc_builtin_host c
                    then if isOpen st then [] else [LockScroll]
                    else []) ++ [Compose n]
    | None => [Throw]
    end ∧
  dialog_prop st' =
    match instance with
    | VObj o => <[o := n]> (dialog_prop st)
    | _ => dialog_prop st
    end.
Proof.
  intros Hu Hn. unfold new_session.
  destruct (deref st dc) as [c|] eqn:Ed.
  - destruct dc as [c0|]; [|done]. rewrite deref_Some in Ed.
    unfold on_activated, addHost.
    destruct instance as [| |b|z|s|o]; try done;
      cbv zeta; rewrite !deref_Some; fields; rewrite Ed;
      cbn [createCompositionSettings]; rewrite deref_Some; fields; rewrite Ed;
      destruct (dc_builtin_host c); fields; unfold isOpen; fields;
      try destruct (0 <? dialogCount st); fields;
      rewrite ?alter_snoc, <- ?app_assoc; done.
  - destruct dc as [c0|].
    + rewrite deref_Some in Ed. unfold on_activated.
      destruct instance as [| |b|z|s|o]; try done;
        cbv zeta; rewrite !deref_Some; fields; rewrite Ed;
        cbn [createCompositionSettings]; fields; done.
    + unfold on_activated.
      destruct instance as [| |b|z|s|o]; try done; repeat split; reflexivity.
Qed.

Lemma on_deactivated_zindex d args b st :
  currentZIndex (on_deactivated d args b st) = currentZIndex st.
Proof.
  unfold on_deactivated. destruct (sessions st !! d) as [sd|]; [|done].
  destruct b; [|done]. destruct (deref _ _) as [c|]; [|done].
  destruct (removeHost_frame c d (set_dialogCount js_decr st))
    as (_ & _ & _ & _ & _ & Hz & _).
  destruct (owner sd); fields; by rewrite Hz.
Qed.

(** What a step does to the sessions and to the z-index counter: only a
    successful activation of an instance other than [undefined] and
    [null] adds a session, and only it and [getNextZIndex] move the
    counter. *)
Lemma step_sessions e st :
  (sessions (step e st) = sessions st ∧
   (currentZIndex (step e st) = currentZIndex st ∨
    e = GetNextZIndex ∧ currentZIndex (step e st) = js_incr (currentZIndex st)))
  ∨
  ∃ t dfd instance data dc a,
    e = Activated t true ∧
    tasks st !! t = Some (AwaitActivate dfd instance data dc a) ∧
    instance ≠ VUndefined ∧ instance ≠ VNull ∧
    sessions (step e st) = sessions st ++ [new_session dfd instance dc a st] ∧
    currentZIndex (step e st) =
      match deref st dc with
      | Some c => if dc_builtin_host c then js_incr (js_incr (currentZIndex st))
                  else currentZIndex st
      | None => currentZIndex st
      end.
Proof.
  destruct e as [c|name dc|obj data ctx|obj rest|d args| |t result|t b|t b];
    cbn [step].
  - left. by split; [|left].
  - left. case_decide; by split; [|left].
  - left. unfold show, ensureDialogInstance, on_instance. cbn [snd].
    destruct obj; fields; by split; [|left].
  - left. unfold close, dialog_close. destruct (getDialog obj st); [|by split; [|left]].
    destruct (sessions st !! _); by split; [|left].
  - left. unfold dialog_close. destruct (sessions st !! _); by split; [|left].
  - left. split; [done|]. by right.
  - left. destruct (tasks st !! t) as [[| | |]|]; try (by split; [|left]).
    destruct result; by split; [|left].
  - destruct (tasks st !! t) as [[|dfd instance data dc a| |]|] eqn:Et;
      try (left; by split; [|left]).
    destruct b; [|left; by split; [|left]].
    destruct (decide (instance = VUndefined ∨ instance = VNull)) as [Hnull|Hnn].
    + left. rewrite on_activated_nullish by done. by split; [|left].
    + right. exists t, dfd, instance, data, dc, a.
      assert (Hu : instance ≠ VUndefined) by (intros ->; apply Hnn; by left).
      assert (Hn : instance ≠ VNull) by (intros ->; apply Hnn; by right).
      destruct (on_activated_exact dfd instance dc a (finish t st) Hu Hn)
        as (Hs & Hz & _).
      repeat split; done.
  - left. destruct (tasks st !! t) as [[| |d args|]|]; try (by split; [|left]).
    split; [|left; exact (on_deactivated_zindex d args b (finish t st))].
    by destruct (on_deactivated_frame d args b (finish t st)) as (_ & ? & _).
Qed.

(** ** The open-dialog counter *)

Lemma step_idle e st :
  (∀ t, e ≠ Activated t true) → (∀ t, e ≠ Deactivated t true) →
  dialogCount (step e st) = dialogCount st ∧
  dialog_prop (step e st) = dialog_prop st ∧
  sessions (step e st) = sessions st.
Proof.
  intros H1 H2.
  destruct e as [c|name dc|obj data ctx|obj rest|d args| |t result|t b|t b];
    cbn [step].
  - done.
  - by case_decide.
  - unfold show, ensureDialogInstance, on_instance. cbn [snd]. destruct obj; fields; done.
  - unfold close, dialog_close. destruct (getDialog obj st); [|done].
    destruct (sessions st !! _); done.
  - unfold dialog_close. destruct (sessions st !! _); done.
  - done.
  - destruct (tasks st !! t) as [[| | |]|]; try done. destruct result; done.
  - destruct b; [by destruct (H1 t)|].
    destruct (tasks st !! t) as [[|dfd instance data dc a| |]|]; done.
  - destruct b; [by destruct (H2 t)|].
    destruct (tasks st !! t) as [[| |d args|]|]; try done.
    unfold on_deactivated. fields. by destruct (sessions st !! d).
Qed.

Lemma deref_step e st dc :
  is_Some (deref st dc) → is_Some (deref (step e st) dc).
Proof.
  destruct dc as [c|]; [|by intros [? ?]]. rewrite !deref_Some. intros Hc.
  destruct e as [c0|name dc|obj data cx|obj rest|d args| |t r|t b|t b].
  3-9: match goal with
       | |- is_Some (ctx_store (step ?e ?s) !! _) =>
         destruct (step_registry e s ltac:(done) ltac:(done)) as (_ & -> & _);
         exact Hc
       end.
  - cbn [step]. fields. destruct Hc as [x Hx]. exists x. by apply lookup_app_l_Some.
  - cbn [step]. case_decide as Hlt; [|done]. unfold addContext. fields.
    destruct (lookup_lt_is_Some_2 _ _ Hlt) as [ctx0 ->].
    apply lookup_lt_is_Some. rewrite length_insert. by apply lookup_lt_is_Some.
Qed.

Lemma accounted_frame st st' :
  accounted st →
  dialogCount st' = dialogCount st →
  dialog_prop st' = dialog_prop st →
  idents st' = idents st →
  (∀ dc, is_Some (deref st dc) → is_Some (deref st' dc)) →
  accounted st'.
Proof.
  intros [Hsz Hb Hat] Hn Hp Hi Hd. split; rewrite ?Hn, ?Hp, ?Hi; try done.
  intros o d H. destruct (Hat o d H) as (x & Hx & Ho & Hc). eauto.
Qed.

Lemma accounted_step e st :
  accounted st → guarded st e →
  accounted (step e st) ∧
  dialogCount (step e st) =
    dialogCount st + (if opens st e then 1 else 0) - (if closes st e then 1 else 0).
Proof.
  intros Hacc Hg.
  assert (Hidle : (∀ t, e ≠ Activated t true) → (∀ t, e ≠ Deactivated t true) →
                  opens st e = false → closes st e = false →
                  accounted (step e st) ∧
                  dialogCount (step e st) =
                    dialogCount st + (if opens st e then 1 else 0)
                    - (if closes st e then 1 else 0)).
  { intros H1 H2 -> ->. destruct (step_idle e st H1 H2) as (Hn & Hp & Hs).
    split; [|lia].
    apply (accounted_frame st); try done.
    - unfold idents. by rewrite Hs.
    - intros dc. apply deref_step. }
  assert (Hstay : step e st = st → opens st e = false → closes st e = false →
                  accounted (step e st) ∧
                  dialogCount (step e st) =
                    dialogCount st + (if opens st e then 1 else 0)
                    - (if closes st e then 1 else 0)).
  { intros -> -> ->. split; [done|lia]. }
  destruct Hacc as [Hsz Hb Hat].
  destruct e as [c0|name dc|obj data cx|obj rest|d args| |t r|t [|]|t [|]];
    try (by apply Hidle).
  - (* a successful activation *)
    cbn [guarded opens closes step] in *.
    destruct (tasks st !! t) as [[|dfd instance data dc a| |]|] eqn:Et;
      try (by apply Hstay).
    destruct Hg as ((o & -> & Hnone) & Hdc & Hlt).
    destruct dc as [c|]; [|by destruct Hdc]. destruct Hdc as [ctx Hctx].
    change (ctx_store st !! c = Some ctx) in Hctx.
    destruct (on_activated_mounts dfd o c ctx a (finish t st) Hctx)
      as (_ & _ & _ & Hcs & _ & Hp & Hn & Hi & _ & _).
    fields.
    assert (Hinc : js_incr (dialogCount st) = dialogCount st + 1)
      by (apply js_incr_exact; unfold max_exact in *; lia).
    split; [split|].
    + rewrite Hn, Hp, Hinc, map_size_insert_None by done. lia.
    + rewrite Hn, Hinc. lia.
    + intros o' d' H. rewrite Hp in H. rewrite Hi.
      assert (Hd : ∀ dc', is_Some (deref st dc') →
                is_Some (deref (on_activated dfd (VObj o) (Some c) a true (finish t st)) dc')).
      { intros [c'|]; [|done]. by rewrite !deref_Some, Hcs. }
      apply lookup_insert_Some in H as [[<- <-]|[Hne H]].
      * exists (VObj o, Some c, a, dfd). split; [|split; [done|]].
        -- unfold idents. fields. rewrite <- (length_fmap ident). apply lookup_snoc.
        -- apply Hd. cbn [fst snd]. rewrite deref_Some. eauto.
      * destruct (Hat o' d' H) as (x & Hx & Ho & Hc).
        exists x. split; [|split; [done|by apply Hd]].
        unfold idents in *. fields. by apply lookup_app_l_Some.
    + rewrite Hn, Hinc. lia.
  - (* a successful deactivation *)
    cbn [guarded opens closes step] in *.
    destruct (tasks st !! t) as [[| |d args|]|] eqn:Et;
      try (by apply Hstay).
    destruct (sessions st !! d) as [sd|] eqn:Esd.
    + destruct (Hg sd eq_refl) as (o & Hown & Hatt).
      destruct (Hat o d Hatt) as (x & Hx & _ & Hdc).
      rewrite (lookup_idents _ _ _ Esd) in Hx. injection Hx as <-.
      cbn [ident fst snd] in Hdc.
      destruct (context sd) as [c|] eqn:Ec; [|by destruct Hdc].
      destruct Hdc as [ctx Hctx]. change (ctx_store st !! c = Some ctx) in Hctx.
      destruct (on_deactivated_unmounts d args sd o c ctx (finish t st)
                  Esd Hown Ec Hctx)
        as (_ & Hs & _ & Hcs & _ & _ & Hp & Hn & _ & _).
      fields.
      assert (Hpos : (0 < size (dialog_prop st))%nat).
      { assert (size (dialog_prop st) ≠ 0%nat); [|lia].
        apply map_size_ne_0_lookup. eauto. }
      assert (Hdec : js_decr (dialogCount st) = dialogCount st - 1)
        by (apply js_decr_exact; unfold max_exact in *; lia).
      split; [split|].
      * rewrite Hn, Hp, Hdec, map_size_delete_Some by eauto. lia.
      * rewrite Hn, Hdec. lia.
      * intros o' d' H. rewrite Hp in H.
        apply lookup_delete_Some in H as [Hne H].
        destruct (Hat o' d' H) as (x & Hx & Ho & Hc).
        exists x. split; [|split; [done|]].
        -- unfold idents in *. by rewrite Hs.
        -- destruct x.1.1.2 as [c'|]; [|by destruct Hc].
           by rewrite !deref_Some, Hcs in *.
      * rewrite Hn, Hdec. lia.
    + assert (E : on_deactivated d args true (finish t st) = finish t st).
      { unfold on_deactivated. fields. by rewrite Esd. }
      rewrite E. split; [|fields; lia].
      apply (accounted_frame st); done.
Qed.

Lemma accounted_run es : ∀ st,
  accounted st → obeys guarded es st →
  accounted (run es st) ∧
  dialogCount (run es st) =
    dialogCount st + Z.of_nat (tally opens es st) - Z.of_nat (tally closes es st).
Proof.
  induction es as [|e es IH]; intros st Hacc Hok.
  - split; [done|]. simpl. lia.
  - destruct Hok as [Hg Hrest].
    destruct (accounted_step e st Hacc Hg) as [Hacc' Hn].
    destruct (IH (step e st) Hacc' Hrest) as [Hacc'' Hn'].
    rewrite run_cons. split; [done|]. rewrite Hn', Hn. cbn [tally].
    destruct (opens st e), (closes st e); lia.
Qed.

Lemma accounted_init : accounted init.
Proof.
  split.
  - vm_compute. reflexivity.
  - vm_compute. discriminate.
  - intros o d H. assert (E : dialog_prop init = ∅) by reflexivity.
    rewrite E in H. by rewrite lookup_empty in H.
Qed.

(** ** Counting the sessions *)

















(** * Further properties of the plugin *)

(** ** Stacking values *)

Lemma js_incr_within z :
  1050 ≤ z ≤ max_exact →
  z ≤ js_incr z ≤ max_exact ∧ (z < max_exact → js_incr z = z + 1).
Proof.
  intros Hz. destruct (decide (z < max_exact)) as [Hlt|Hge].
  - rewrite js_incr_exact by (unfold max_exact in *; lia).
    split; [|done]. unfold max_exact in *. lia.
  - assert (z = max_exact) as -> by lia. rewrite js_incr_saturates.
    split; [lia|]. lia.
Qed.

Lemma zindex_step e st :
  zindex_bounded st →
  zindex_bounded (step e st) ∧ currentZIndex st ≤ currentZIndex (step e st).
Proof.
  unfold zindex_bounded. intros Hb.
  destruct (js_incr_within _ Hb) as [H1 _].
  assert (Hb1 : 1050 ≤ js_incr (currentZIndex st) ≤ max_exact) by lia.
  destruct (js_incr_within _ Hb1) as [H2 _].
  destruct (step_sessions e st)
    as [[_ [-> | [_ ->]]] | (t & dfd & instance & data & dc & a & _ & _ & _ & _ & _ & ->)];
    [lia..|].
  destruct (deref st dc) as [c|]; [|lia]. destruct (dc_builtin_host c); lia.
Qed.

Lemma zindex_bounded_run es : zindex_bounded (run es init).
Proof.
  apply run_invariant; [intros s e H; by apply zindex_step|].
  unfold zindex_bounded, max_exact. vm_compute. split; discriminate.
Qed.

(** The z-index counter never goes down and never leaves the range from
    1050 to 2^53: closing dialogs gives no stacking value back. *)
Theorem currentZIndex_never_decreases (es1 es2 : list event) :
  1050 ≤ currentZIndex (run es1 init) ∧
  currentZIndex (run es1 init) ≤ currentZIndex (run (es1 ++ es2) init) ∧
  currentZIndex (run (es1 ++ es2) init) ≤ max_exact.
Proof.
  rewrite run_app.
  pose proof (zindex_bounded_run es1) as Hb.
  assert (H : ∀ es st, zindex_bounded st →
            zindex_bounded (run es st) ∧ currentZIndex st ≤ currentZIndex (run es st)).
  { induction es as [|e es IH]; intros st Hst; [split; [done|simpl; lia]|].
    rewrite run_cons. destruct (zindex_step e st Hst) as [Hst' Hle].
    destruct (IH _ Hst') as [Hst'' Hle']. split; [done|lia]. }
  destruct (H es2 _ Hb) as [[_ Hmax] Hle].
  destruct Hb as [Hlo _]. repeat split; done.
Qed.

Lemma stacked_step e st :
  zindex_bounded st →
  (currentZIndex st < max_exact → stacked st) →
  currentZIndex (step e st) < max_exact → stacked (step e st).
Proof.
  intros Hb Hst Hlt.
  destruct (zindex_step e st Hb) as [Hb' Hle].
  unfold zindex_bounded in Hb, Hb'.
  assert (Hz : currentZIndex st < max_exact) by lia.
  destruct (Hst Hz) as [Hone Htwo]. clear Hst.
  destruct (js_incr_within _ Hb) as [H1 H1e].
  destruct (step_sessions e st)
    as [[Hs _] | (t & dfd & instance & data & dc & a & _ & _ & _ & _ & Hs & Hzs)].
  - split; rewrite Hs.
    + intros d sd Hd.
      destruct (Hone d sd Hd) as [?|(b & Hbl0 & Hh0 & Hb0 & Hle0)]; [by left|].
      right. exists b. repeat split; try done. clear -Hle0 Hle. lia.
    + exact Htwo.
  - assert (Hnew : (host (new_session dfd instance dc a st) = None ∧
                    blockout (new_session dfd instance dc a st) = None) ∨
                   (blockout (new_session dfd instance dc a st)
                      = Some (currentZIndex st + 1) ∧
                    host (new_session dfd instance dc a st)
                      = Some (currentZIndex st + 1 + 1) ∧
                    currentZIndex (step e st) = currentZIndex st + 2)).
    { unfold new_session. rewrite Hzs in Hlt. rewrite Hzs.
      destruct (deref st dc) as [c|]; [|by left].
      destruct (dc_builtin_host c); [|by left]. right.
      assert (Hb1 : 1050 ≤ js_incr (currentZIndex st) ≤ max_exact) by lia.
      destruct (js_incr_within _ Hb1) as [H2 H2e].
      assert (E1 : js_incr (currentZIndex st) = currentZIndex st + 1) by auto.
      assert (E2 : js_incr (js_incr (currentZIndex st)) = js_incr (currentZIndex st) + 1)
        by (apply H2e; lia).
      cbn [host blockout]. rewrite E2, E1. repeat split; [done..|lia]. }
    split; rewrite Hs.
    + intros d sd Hd. apply lookup_snoc_Some in Hd as [Hd|[_ ->]].
      * destruct (Hone d sd Hd) as [?|(b & Hbl0 & Hh0 & Hb0 & Hle0)]; [by left|].
        right. exists b. repeat split; try done. clear -Hle0 Hle. lia.
      * destruct Hnew as [?|(Hbl & Hh & Hz')]; [by left|].
        right. exists (currentZIndex st + 1). destruct Hb as [Hlo Hhi].
        repeat split; try done; clear -Hlo Hz'; lia.
    + intros d1 d2 sd1 sd2 h1 b2 Hlt12 Hd1 Hd2 Hh1 Hb2.
      apply lookup_snoc_Some in Hd2 as [Hd2|[-> ->]].
      * assert (Hd1' : sessions st !! d1 = Some sd1).
        { apply lookup_snoc_Some in Hd1 as [?|[-> _]]; [done|].
          apply lookup_lt_Some in Hd2. lia. }
        eauto.
      * apply lookup_snoc_Some in Hd1 as [Hd1|[? _]]; [|lia].
        destruct Hnew as [[_ Hn]|(Hbl & _ & _)]; [congruence|].
        rewrite Hbl in Hb2. injection Hb2 as <-.
        destruct (Hone d1 sd1 Hd1) as [[? _]|(b & _ & Hh & _ & Hle1)]; [congruence|].
        rewrite Hh in Hh1. injection Hh1 as <-. clear -Hle1. lia.
Qed.

(** While the z-index counter is below 2^53, the dialogs of the built-in
    context stack in the order they were opened: each host is one above
    its blockout, and both lie above the host of every dialog opened
    before, whatever was closed in between. *)
Theorem dialogs_stack_in_opening_order (es : list event) :
  currentZIndex (run es init) < max_exact → stacked (run es init).
Proof.
  assert (H : zindex_bounded (run es init) ∧
              (currentZIndex (run es init) < max_exact → stacked (run es init))).
  { apply (run_invariant (λ s, zindex_bounded s ∧
                               (currentZIndex s < max_exact → stacked s))).
    - intros s e [Hb Hst]. split; [by apply zindex_step|]. by apply stacked_step.
    - split.
      + unfold zindex_bounded, max_exact. vm_compute. split; discriminate.
      + intros _. split.
        * intros d sd Hd. assert (E : sessions init = []) by reflexivity.
          rewrite E in Hd. by rewrite lookup_nil in Hd.
        * intros d1 d2 sd1 sd2 h1 b2 _ Hd. assert (E : sessions init = []) by reflexivity.
          rewrite E in Hd. by rewrite lookup_nil in Hd. }
  apply H.
Qed.

Lemma dialogs_stack_in_opening_order_witness :
  stacked (run [Show (VObj 1) VUndefined VUndefined; Activated 0 true;
                Show (VObj 2) VUndefined VUndefined; Activated 1 true] init).
Proof.
  apply dialogs_stack_in_opening_order. vm_compute. reflexivity.
Defined.

(** ** Composition settings *)

Lemma deref_hooks_step e st dc ctx :
  deref st dc = Some ctx →
  ∃ ctx', deref (step e st) dc = Some ctx' ∧ same_hooks ctx ctx'.
Proof.
  destruct dc as [c|]; [|done]. rewrite !deref_Some. intros Hc.
  destruct e as [c0|name dc|obj data cx|obj rest|d args| |t r|t b|t b].
  3-9: match goal with
       | |- ∃ _, ctx_store (step ?e ?s) !! _ = _ ∧ _ =>
         destruct (step_registry e s ltac:(done) ltac:(done)) as (_ & -> & _);
         by exists ctx
       end.
  - cbn [step]. fields. exists ctx. split; [by apply lookup_app_l_Some|done].
  - cbn [step]. case_decide as Hlt; [|by exists ctx]. unfold addContext. fields.
    destruct (lookup_lt_is_Some_2 _ _ Hlt) as [ctx0 Hctx0]. rewrite Hctx0.
    destruct (decide (dc = c)) as [->|Hne].
    + rewrite list_lookup_insert_eq by done. eexists. split; [done|].
      rewrite Hctx0 in Hc. injection Hc as ->. done.
    + rewrite list_lookup_insert_ne by done. by exists ctx.
Qed.

Lemma settings_sound_step e st : settings_sound st → settings_sound (step e st).
Proof.
  intros Hst.
  assert (Hold : ∀ d sd, sessions st !! d = Some sd →
            (∀ s, settings sd = Some s →
               model s = owner sd ∧ activate s = false ∧
               ∃ ctx, deref (step e st) (context sd) = Some ctx ∧
                      cs_attached s = dc_attached ctx ∧
                      cs_compositionComplete s = dc_compositionComplete ctx) ∧
            (settings sd = None → host sd = None ∧ blockout sd = None)).
  { intros d sd Hd. destruct (Hst d sd Hd) as [Hs Hn]. split; [|done].
    intros s Hset. destruct (Hs s Hset) as (Hm & Ha & ctx & Hctx & Hat & Hcc).
    destruct (deref_hooks_step e st _ _ Hctx) as (ctx' & Hctx' & _ & Hat' & Hcc').
    repeat split; try done. exists ctx'. by rewrite Hat', Hcc'. }
  destruct (step_sessions e st)
    as [[Hs _] | (t & dfd & instance & data & dc & a & _ & _ & _ & _ & Hs & _)];
    intros d sd Hd; rewrite Hs in Hd.
  - by apply (Hold d).
  - apply lookup_snoc_Some in Hd as [Hd|[_ ->]]; [by eapply Hold|].
    unfold new_session. destruct (deref st dc) as [c|] eqn:Ed.
    + split; [|done]. intros s [= <-]. cbn [owner context model activate
        cs_attached cs_compositionComplete].
      destruct (deref_hooks_step e st _ _ Ed) as (ctx' & Hctx' & _ & Hat' & Hcc').
      repeat split. exists ctx'. by rewrite Hat', Hcc'.
    + split; [done|]. done.
Qed.

(** Whatever has happened, the settings a session was composed with
    name its owner as the model, say [activate: false], and forward
    exactly the optional hooks its context object has. *)
Theorem settings_match_owner_and_context (es : list event) (d : nat) (sd : Dialog)
    (s : CompositionSettings) :
  sessions (run es init) !! d = Some sd →
  settings sd = Some s →
  model s = owner sd ∧ activate s = false ∧
  ∃ ctx, deref (run es init) (context sd) = Some ctx ∧
         cs_attached s = dc_attached ctx ∧
         cs_compositionComplete s = dc_compositionComplete ctx.
Proof.
  intros Hd Hs.
  assert (H : settings_sound (run es init)).
  { apply run_invariant; [intros; by apply settings_sound_step|].
    intros d0 sd0 Hd0. assert (E : sessions init = []) by reflexivity.
    rewrite E in Hd0. by rewrite lookup_nil in Hd0. }
  destruct (H d sd Hd) as [H1 _]. by apply H1.
Qed.

Lemma settings_match_owner_and_context_witness :
  model (mkSettings (VObj 1) false false true) = VObj 1 ∧
  activate (mkSettings (VObj 1) false false true) = false.
Proof.
  assert (H1 : sessions (run [Show (VObj 1) VUndefined VUndefined; Activated 0 true] init)
               !! 0%nat
               = Some (mkDialog (VObj 1) (Some 0%nat) 0 0
                         (Some (mkSettings (VObj 1) false false true))
                         (Some 1052) (Some 1051))) by (vm_compute; reflexivity).
  destruct (settings_match_owner_and_context _ _ _ _ H1 eq_refl) as (H2 & H3 & _).
  split; [exact H2|exact H3].
Defined.

(** ** One promise per session *)

Lemma promises_apart_step e st :
  consistent st → promises_apart st → promises_apart (step e st).
Proof.
  intros [HP HO HA HB] Hpa.
  destruct (step_change e st)
    as [Ht Hd Hi | k Hk Ht Hd Hi | k Hk Ht Hd Hi | t Ht Hd Hi
       | t k0 k dfd' Et Hk0 Hk Ht Hd Hi | t dfd' instance data dc a He Et Ht Hd Hi
       | t k0 dfd' x Et Hk0 Ht Hd Hi Hx | t d sd args He Et Esd Ht Hd Hi];
    unfold promises_apart; rewrite Hi; try exact Hpa.
  intros d1 d2 x1 x2 H1 H2 E.
  apply lookup_snoc_Some in H1 as [H1|[-> ->]];
    apply lookup_snoc_Some in H2 as [H2|[-> ->]]; [by eapply Hpa| | |done].
  - destruct (HA t k0 d1 x1 Et H1). by rewrite Hk0, E, Hx.
  - destruct (HA t k0 d2 x2 Et H2). by rewrite Hk0, <- E, Hx.
Qed.

Lemma promises_apart_run es : promises_apart (run es init).
Proof.
  assert (H : consistent (run es init) ∧ promises_apart (run es init)).
  { apply (run_invariant (λ s, consistent s ∧ promises_apart s)).
    - intros s e [Hc Hp]. split; [by apply consistent_step|by apply promises_apart_step].
    - split; [apply (consistent_run [])|].
      intros d1 d2 x1 x2 H1. assert (E : idents init = []) by reflexivity.
      rewrite E in H1. by rewrite lookup_nil in H1. }
  apply H.
Qed.

(** Closing one dialog resolves its own promise and nothing of another
    dialog: the other owner keeps its session, the other session is as
    it was, and the other promise is in the state it was in. *)
Theorem close_leaves_other_dialogs (es0 : list event) (o d c o2 d2 : nat)
    (sd sd2 : Dialog) (ctx : DialogContext) (args : list value) :
  dialog_prop (run es0 init) !! o = Some d →
  sessions (run es0 init) !! d = Some sd →
  owner sd = VObj o →
  context sd = Some c →
  ctx_store (run es0 init) !! c = Some ctx →
  o2 ≠ o → d2 ≠ d →
  sessions (run es0 init) !! d2 = Some sd2 →
  let st := run es0 init in
  let st2 := run [Close (VObj o) args; Deactivated (length (tasks st)) true] st in
  getDialog (VObj o2) st2 = getDialog (VObj o2) st ∧
  sessions st2 !! d2 = Some sd2 ∧
  deferreds st2 !! promise sd2 = deferreds st !! promise sd2 ∧
  currentZIndex st2 = currentZIndex st.
Proof.
  intros Ho Hsd Hown Hc Hctx Hno Hnd Hsd2 st st2.
  destruct (close_succeeds st o d c sd ctx args Ho Hsd Hown Hc Hctx)
    as (_ & Hs & _ & _ & _ & Hz & Hp & _ & Hd & _).
  fold st2 in Hs, Hz, Hp, Hd.
  assert (Hpr : promise sd ≠ promise sd2).
  { intros E. apply Hnd.
    apply (promises_apart_run es0 d2 d (ident sd2) (ident sd));
      [by apply lookup_idents..|done]. }
  unfold getDialog. cbn [truthy]. rewrite Hp, Hs, Hd, Hz.
  repeat split; try done.
  - by rewrite lookup_delete_ne.
  - by rewrite list_lookup_alter_ne.
Qed.

Lemma close_leaves_other_dialogs_witness :
  let st := run [Show (VObj 1) VUndefined VUndefined; Activated 0 true;
                 Show (VObj 2) VUndefined VUndefined; Activated 1 true] init in
  let st2 := run [Close (VObj 1) [VStr "bye"]; Deactivated 2 true] st in
  getDialog (VObj 2) st2 = Some 1%nat ∧ deferreds st2 !! 1%nat = Some Pending.
Proof.
  cbv zeta.
  set (es0 := [Show (VObj 1) VUndefined VUndefined; Activated 0 true;
               Show (VObj 2) VUndefined VUndefined; Activated 1 true]).
  assert (H1 : dialog_prop (run es0 init) !! 1%nat = Some 0%nat) by (vm_compute; reflexivity).
  assert (H2 : sessions (run es0 init) !! 0%nat
               = Some (mkDialog (VObj 1) (Some 0%nat) 0 0
                         (Some (mkSettings (VObj 1) false false true))
                         (Some 1052) (Some 1051))) by (vm_compute; reflexivity).
  assert (H3 : ctx_store (run es0 init) !! 0%nat
               = Some (mkContext (VStr "default") true false true))
    by (vm_compute; reflexivity).
  assert (H4 : sessions (run es0 init) !! 1%nat
               = Some (mkDialog (VObj 2) (Some 0%nat) 1 1
                         (Some (mkSettings (VObj 2) false false true))
                         (Some 1054) (Some 1053))) by (vm_compute; reflexivity).
  destruct (close_leaves_other_dialogs es0 1 0 0 2 1 _ _ _ [VStr "bye"]
              H1 H2 eq_refl eq_refl H3 ltac:(discriminate) ltac:(discriminate) H4)
    as (Hg & _ & Hd & _).
  vm_compute in Hg, Hd. vm_compute. split; [exact Hg|exact Hd].
Defined.

(** ** Shows that never settle *)

Lemma on_deactivated_no_context d args b sd st :
  sessions st !! d = Some sd → context sd = None →
  deferreds (on_deactivated d args b st) = deferreds st ∧
  dialog_prop (on_deactivated d args b st) = dialog_prop st ∧
  dialogCount (on_deactivated d args b st)
    = (if b then js_decr (dialogCount st) else dialogCount st) ∧
  effects (on_deactivated d args b st)
    = effects st ++ (if b then [Throw] else []).
Proof.
  intros Hsd Hc. unfold on_deactivated. rewrite Hsd, Hc.
  destruct b; fields; [done|]. by rewrite app_nil_r.
Qed.

Lemma stuck_step e st dfd : stuck dfd st → stuck dfd (step e st).
Proof.
  intros (HP & HT & HS).
  destruct (step_change e st)
    as [Ht Hd Hi | k Hk Ht Hd Hi | k Hk Ht Hd Hi | t Ht Hd Hi
       | t k0 k dfd' Et Hk0 Hk Ht Hd Hi | t dfd' instance data dc a He Et Ht Hd Hi
       | t k0 dfd' x Et Hk0 Ht Hd Hi Hx | t d sd args He Et Esd Ht Hd Hi];
    unfold stuck; rewrite ?Ht, ?Hi.
  - by rewrite Hd.
  - rewrite Hd. split; [by apply lookup_app_l_Some|]. split; [|done].
    intros t' k' H. apply lookup_snoc_Some in H as [H|[-> ->]]; [eauto|].
    rewrite Hk. intros [= E]. apply lookup_lt_Some in HP. lia.
  - rewrite Hd. split; [done|]. split; [|done].
    intros t' k' H. apply lookup_snoc_Some in H as [H|[-> ->]]; [eauto|congruence].
  - rewrite Hd. split; [done|]. split; [|done].
    intros t' k' H Hk'. eapply lookup_finish in H as [H _]; [|done]. by eapply HT.
  - rewrite Hd. split; [done|]. split; [|done].
    intros t' k' H Hk'. apply lookup_snoc_Some in H as [H|[_ ->]].
    + eapply lookup_finish in H as [H _]; [|done]. by eapply HT.
    + eapply (HT t k0); [done|]. congruence.
  - assert (Hfar : dfd' ≠ dfd) by (intros ->; by eapply (HT t)).
    rewrite Hd. split; [by rewrite list_lookup_alter_ne|]. split; [|done].
    intros t' k' H Hk'. eapply lookup_finish in H as [H _]; [|done]. by eapply HT.
  - assert (Hfar : dfd' ≠ dfd) by (intros ->; eapply (HT t k0); done).
    rewrite Hd. split; [done|]. split.
    + intros t' k' H Hk'. eapply lookup_finish in H as [H _]; [|done]. by eapply HT.
    + intros d y Hy E. apply lookup_snoc_Some in Hy as [Hy|[_ ->]]; [eauto|congruence].
  - split; [|split; [|done]].
    + destruct (decide (promise sd = dfd)) as [E|Hne].
      * assert (Hc : context sd = None).
        { apply (HS d (ident sd)); [by apply lookup_idents|done]. }
        subst e. cbn [step]. rewrite Et.
        destruct (on_deactivated_no_context d args true sd (finish t st) Esd Hc)
          as (-> & _). done.
      * by rewrite Hd, list_lookup_alter_ne.
    + intros t' k' H Hk'. eapply lookup_finish in H as [H _]; [|done]. by eapply HT.
Qed.

Lemma stuck_run es st dfd : stuck dfd st → deferreds (run es st) !! dfd = Some Pending.
Proof.
  intros H. apply (run_invariant (stuck dfd)) with (es := es) in H as [H _]; [done|].
  intros s e. apply stuck_step.
Qed.

(** [show] of an object under a context name with no entry in the
    registry, followed by a successful activation. *)
Lemma show_without_context (st : state) (o : nat) (activationData name : value) :
  getContext name st = None →
  let dfd := fst (show (VObj o) activationData name st) in
  let st2 := run [Show (VObj o) activationData name;
                  Activated (length (tasks st)) true] st in
  dfd = length (deferreds st) ∧
  tasks st2 = tasks st ++ [Done] ∧
  deferreds st2 = deferreds st ++ [Pending] ∧
  sessions st2 = sessions st ++
    [mkDialog (VObj o) None (activators st) dfd None None None] ∧
  dialog_prop st2 = <[o := length (sessions st)]> (dialog_prop st) ∧
  dialogCount st2 = dialogCount st ∧
  currentZIndex st2 = currentZIndex st ∧
  ctx_store st2 = ctx_store st ∧
  effects st2 = effects st ++ [Throw].
Proof.
  intros Hg dfd st2.
  assert (E : st2 = on_activated dfd (VObj o) None (activators st) true
                      (finish (length (tasks st))
                         (snd (show (VObj o) activationData name st)))).
  { subst st2 dfd. cbn [run fold_left step].
    unfold getContext in Hg. unfold show, ensureDialogInstance, on_instance.
    cbn [fst snd isString]. fields.
    by rewrite lookup_snoc, Hg. }
  rewrite E. clear E st2. set (s := finish _ _).
  destruct (on_activated_exact dfd (VObj o) None (activators st) s
              ltac:(discriminate) ltac:(discriminate))
    as (Hs & Hz & Hn & He & Hp).
  rewrite Hs, Hz, Hn, He, Hp.
  assert (Ht : tasks (on_activated dfd (VObj o) None (activators st) true s) = tasks s)
    by (by destruct (on_activated_frame dfd (VObj o) None (activators st) s) as (? & _)).
  assert (Hd : deferreds (on_activated dfd (VObj o) None (activators st) true s)
               = deferreds s)
    by (by destruct (on_activated_frame dfd (VObj o) None (activators st) s) as (_ & ? & _)).
  assert (Hc : ctx_store (on_activated dfd (VObj o) None (activators st) true s)
               = ctx_store s)
    by (by destruct (on_activated_frame dfd (VObj o) None (activators st) s)
          as (_ & _ & _ & ? & _)).
  rewrite Ht, Hd, Hc. subst s dfd.
  unfold new_session, show, ensureDialogInstance, on_instance.
  cbn [isString deref mbind option_bind]. fields.
  repeat split; try done. by rewrite insert_snoc.
Qed.

(** A context name without an entry is not noticed by [show]: after a
    successful activation the owner carries a session, nothing is
    mounted or counted, the callback has thrown, and the promise is
    pending at every later point.  A [close] with a successful
    deactivation then lowers the counter although nothing was counted,
    throws at [removeHost], and leaves the session attached. *)
Theorem show_under_missing_context_never_settles (es0 : list event) (o : nat)
    (activationData name : value) (args : list value) :
  getContext name (run es0 init) = None →
  let st := run es0 init in
  let dfd := fst (show (VObj o) activationData name st) in
  let st2 := run [Show (VObj o) activationData name;
                  Activated (length (tasks st)) true] st in
  let st4 := run [Close (VObj o) args; Deactivated (length (tasks st2)) true] st2 in
  (getDialog (VObj o) st2 = Some (length (sessions st)) ∧
   dialogCount st2 = dialogCount st ∧
   currentZIndex st2 = currentZIndex st ∧
   effects st2 = effects st ++ [Throw] ∧
   ∀ es, deferreds (run es st2) !! dfd = Some Pending) ∧
  (getDialog (VObj o) st4 = Some (length (sessions st)) ∧
   dialogCount st4 = js_decr (dialogCount st) ∧
   effects st4 = effects st ++ [Throw; Throw]).
Proof.
  intros Hg st dfd st2 st4.
  destruct (show_without_context st o activationData name Hg)
    as (Hdfd & Ht & Hd & Hs & Hp & Hn & Hz & Hc & He).
  fold dfd in Hdfd, Hs. fold st2 in Ht, Hd, Hs, Hp, Hn, Hz, Hc, He.
  pose proof (consistent_run es0) as [HP HO HA HB]. fold st in HP, HO, HA, HB.
  assert (Hget : getDialog (VObj o) st2 = Some (length (sessions st))).
  { unfold getDialog. cbn [truthy]. rewrite Hp. apply lookup_insert_eq. }
  assert (Hsd : sessions st2 !! length (sessions st)
                = Some (mkDialog (VObj o) None (activators st) dfd None None None))
    by (rewrite Hs; apply lookup_snoc).
  split.
  - repeat split; try done. intros es. apply stuck_run. split; [|split].
    + rewrite Hd, Hdfd. apply lookup_snoc.
    + rewrite Ht. intros t k H Hk. apply lookup_snoc_Some in H as [H|[_ ->]]; [|done].
      specialize (HP _ _ _ H Hk). apply lookup_lt_Some in HP. lia.
    + unfold idents. rewrite Hs, fmap_app. intros d x Hx E.
      apply lookup_snoc_Some in Hx as [Hx|[_ ->]]; [|done].
      specialize (HB _ _ Hx). lia.
  - assert (E : st4 = on_deactivated (length (sessions st)) args true
                        (finish (length (tasks st2))
                           (park (AwaitDeactivate (length (sessions st)) args) st2))).
    { subst st4. cbn [run fold_left step]. unfold close, dialog_close.
      rewrite Hget, Hsd. fields. by rewrite lookup_snoc. }
    rewrite E. clear E st4. set (s := finish _ _).
    destruct (on_deactivated_no_context (length (sessions st)) args true _ s Hsd eq_refl)
      as (_ & Hp4 & Hn4 & He4).
    unfold getDialog. cbn [truthy]. rewrite Hp4, Hn4, He4. subst s. fields.
    rewrite Hp, Hn, He, <- app_assoc. repeat split; try done. apply lookup_insert_eq.
Qed.

Lemma show_under_missing_context_never_settles_witness :
  let st2 := run [Show (VObj 1) VUndefined (VStr "nowhere"); Activated 0 true] init in
  getDialog (VObj 1) st2 = Some 0%nat ∧ dialogCount st2 = 0 ∧
  deferreds (run [Close (VObj 1) []; Deactivated 1 true] st2) !! 0%nat = Some Pending.
Proof.
  assert (H : getContext (VStr "nowhere") (run [] init) = None) by (vm_compute; reflexivity).
  destruct (show_under_missing_context_never_settles [] 1 VUndefined (VStr "nowhere") [] H)
    as ((H1 & H2 & _ & _ & H3) & _).
  specialize (H3 [Close (VObj 1) []; Deactivated 1 true]).
  vm_compute in H1, H2, H3. vm_compute. split; [exact H1|split; [exact H2|exact H3]].
Defined.

(** For [undefined] and [null] a successful activation throws at the
    assignment of [__dialog__], before anything is made; nothing holds
    the deferred afterwards, and the promise of that [show] is pending
    at every later point. *)
Theorem show_of_nothing_never_settles (es0 : list event) (t dfd : nat)
    (instance activationData : value) (dialogContext : option nat)
    (dialogActivator : nat) :
  tasks (run es0 init) !! t =
    Some (AwaitActivate dfd instance activationData dialogContext dialogActivator) →
  instance = VUndefined ∨ instance = VNull →
  step (Activated t true) (run es0 init) = emit Throw (finish t (run es0 init)) ∧
  ∀ es, deferreds (run (es0 ++ Activated t true :: es) init) !! dfd = Some Pending.
Proof.
  intros Et Hnull.
  assert (E : step (Activated t true) (run es0 init) = emit Throw (finish t (run es0 init))).
  { cbn [step]. rewrite Et. by apply on_activated_nullish. }
  split; [done|]. intros es. rewrite run_app.
  change (run (Activated t true :: es) (run es0 init))
    with (run es (step (Activated t true) (run es0 init))).
  rewrite E, unheld_run.
  - fields. eapply (held_pending _ (consistent_run es0)); [exact Et|reflexivity].
  - exact (finish_unheld _ _ _ _ (consistent_run es0) Et eq_refl).
Qed.

Lemma show_of_nothing_never_settles_witness :
  deferreds (run ([Show VUndefined VUndefined VUndefined] ++ Activated 0 true :: []) init)
    !! 0%nat = Some Pending.
Proof.
  refine (proj2 (show_of_nothing_never_settles [Show VUndefined VUndefined VUndefined]
                   0 0 VUndefined VUndefined (Some 0%nat) 0 _ _) []).
  - vm_compute. reflexivity.
  - by left.
Defined.

(** ** The context of a dialog is fixed when show is called *)

(** [show] looks its context up before anything asynchronous happens
    (line 198): when the name is registered anew while the module is
    being acquired, the dialog is still mounted in the context object
    that was registered when [show] was called. *)
Theorem show_uses_context_registered_at_call (st : state) (moduleId : string)
    (activationData name : value) (c c2 o : nat) (ctx : DialogContext) :
  getContext name st = Some c →
  ctx_store st !! c = Some ctx →
  (c2 < length (ctx_store st))%nat →
  let key := to_key (js_or name (VStr "default")) in
  let st' := run [Show (VStr moduleId) activationData name;
                  AddContext key c2;
                  Acquired (length (tasks st)) (Some (VObj o));
                  Activated (S (length (tasks st))) true] st in
  contexts st' !! key = Some c2 ∧
  idents st' !! length (sessions st)
    = Some (VObj o, Some c, activators st, length (deferreds st)) ∧
  getDialog (VObj o) st' = Some (length (sessions st)).
Proof.
  intros Hg Hctx Hlt key st'. unfold getContext in Hg.
  set (s1 := step (AddContext key c2) (step (Show (VStr moduleId) activationData name) st)).
  assert (Hc1 : ∃ ctx1, ctx_store s1 !! c = Some ctx1).
  { subst s1. cbn [step]. unfold show, ensureDialogInstance. cbn [snd isString]. fields.
    rewrite decide_True by done. unfold addContext. fields.
    destruct (lookup_lt_is_Some_2 _ _ Hlt) as [ctx0 ->].
    apply lookup_lt_is_Some. rewrite length_insert. by eapply lookup_lt_Some. }
  destruct Hc1 as [ctx1 Hc1].
  assert (Hk1 : contexts s1 !! key = Some c2).
  { subst s1. cbn [step]. unfold show, ensureDialogInstance. cbn [snd isString]. fields.
    rewrite decide_True by done. unfold addContext. fields. apply lookup_insert_eq. }
  assert (Ht1 : tasks s1 = tasks st ++
                  [AwaitAcquire (length (deferreds st)) moduleId activationData (Some c)]).
  { subst s1. cbn [step]. unfold show, ensureDialogInstance. cbn [snd isString to_key].
    fields. rewrite decide_True by done. unfold addContext. fields. by rewrite Hg. }
  assert (Hs1 : sessions s1 = sessions st ∧ activators s1 = activators st ∧
                dialog_prop s1 = dialog_prop st).
  { subst s1. cbn [step]. unfold show, ensureDialogInstance. cbn [snd isString]. fields.
    rewrite decide_True by done. done. }
  destruct Hs1 as (Hs1 & Ha1 & Hp1).
  assert (E : st' = on_activated (length (deferreds st)) (VObj o) (Some c)
                      (activators st) true
                      (finish (S (length (tasks st)))
                         (on_instance (length (deferreds st)) (VObj o) activationData
                            (Some c) (finish (length (tasks st)) s1)))).
  { subst st'. cbn [run fold_left]. fold s1.
    cbn [step]. rewrite Ht1, lookup_snoc.
    unfold on_instance at 1 2. fields. rewrite Ht1, insert_snoc, Ha1.
    replace (S (length (tasks st))) with (length (tasks st ++ [Done])) at 1
      by (rewrite length_app; simpl; lia).
    by rewrite lookup_snoc. }
  rewrite E. clear E st'. set (s := finish _ _).
  destruct (on_activated_mounts (length (deferreds st)) o c ctx1 (activators st) s Hc1)
    as (_ & _ & Hcx & _ & _ & Hp & _ & Hi & _).
  unfold getDialog. cbn [truthy]. rewrite Hcx, Hi, Hp. subst s.
  unfold on_instance, idents. fields. rewrite Hs1, Hp1.
  split; [done|]. split; [|apply lookup_insert_eq].
  rewrite <- (length_fmap ident). apply lookup_snoc.
Qed.

Lemma show_uses_context_registered_at_call_witness :
  let st := step (NewContext (mkContext VUndefined false false false)) init in
  let st' := run [Show (VStr "viewmodels/about") VUndefined VUndefined;
                  AddContext "default" 1;
                  Acquired 0 (Some (VObj 7));
                  Activated 1 true] st in
  contexts st' !! "default" = Some 1%nat ∧
  idents st' !! 0%nat = Some (VObj 7, Some 0%nat, 0%nat, 0%nat).
Proof.
  cbv zeta.
  set (st := step (NewContext (mkContext VUndefined false false false)) init).
  assert (H1 : getContext VUndefined st = Some 0%nat) by (vm_compute; reflexivity).
  assert (H2 : ctx_store st !! 0%nat = Some (mkContext (VStr "default") true false true))
    by (vm_compute; reflexivity).
  assert (H3 : (1 < length (ctx_store st))%nat) by (vm_compute; lia).
  destruct (show_uses_context_registered_at_call st "viewmodels/about"
              VUndefined VUndefined 0 1 7 _ H1 H2 H3) as (H4 & H5 & _).
  vm_compute in H4, H5. vm_compute. split; [exact H4|exact H5].
Defined.

(** ** Helper names *)

Lemma show_hidden_step e st :
  helpers st !! "show" = Some EmptyString →
  helpers (step e st) !! "show" = Some EmptyString.
Proof.
  intros H.
  destruct e as [c|name dc|obj data cx|obj rest|d args| |t r|t b|t b].
  3-9: match goal with
       | |- helpers (step ?e ?s) !! _ = _ =>
         destruct (step_registry e s ltac:(done) ltac:(done)) as (_ & _ & ->);
         exact H
       end.
  - done.
  - cbn [step]. case_decide; [|done]. unfold addContext. fields.
    destruct (decide (helperName name = "show")) as [E|Hne].
    + rewrite E, lookup_insert_eq. apply helperName_show in E. by rewrite E.
    + by rewrite lookup_insert_ne.
Qed.

(** Registering a context under the empty name assigns the helper to the
    property [show] itself.  From then on, whatever else happens, no
    call of [show] or of an installed [show<Name>] returns a promise. *)
Theorem empty_context_name_disables_show (dialogContext : nat) (st : state)
    (es : list event) (depth : nat) (prop : string)
    (obj activationData context : value) (dfd : nat) (s : state) :
  call depth prop obj activationData context
    (run es (addContext EmptyString dialogContext st)) ≠ Returns dfd s.
Proof.
  apply call_hidden.
  apply (run_invariant (λ s, helpers s !! "show" = Some EmptyString)).
  - intros s0 e. apply show_hidden_step.
  - unfold addContext. fields. change (helperName EmptyString) with "show".
    apply lookup_insert_eq.
Qed.

(** Names that differ in the case of their first letter share one
    helper: after both are registered, [show<Name>] shows in the context
    registered last, and the context registered first keeps its entry
    but has no helper of its own. *)
Theorem helper_shared_by_names_alike (n1 n2 : string) (c1 c2 : nat) (st : state)
    (obj activationData : value) :
  helperName n1 = helperName n2 →
  n1 ≠ n2 →
  helpers st !! "show" = None →
  let st' := addContext n2 c2 (addContext n1 c1 st) in
  helpers st' !! helperName n1 = Some n2 ∧
  contexts st' !! n1 = Some c1 ∧
  contexts st' !! n2 = Some c2 ∧
  ∀ depth,
    call (S (S depth)) (helperName n1) obj activationData VUndefined st' =
      Returns (fst (show obj activationData (VStr n2) st'))
              (snd (show obj activationData (VStr n2) st')).
Proof.
  intros Hh Hne Hshow st'.
  assert (Hn2 : n2 ≠ EmptyString).
  { intros ->. apply Hne. apply helperName_show. by rewrite Hh. }
  assert (H1 : helpers st' !! helperName n1 = Some n2).
  { subst st'. unfold addContext. fields. rewrite Hh. apply lookup_insert_eq. }
  assert (Hs : helpers st' !! "show" = None).
  { subst st'. unfold addContext. fields.
    rewrite !lookup_insert_ne; [done|..].
    - rewrite Hh. intros E. by apply helperName_show in E.
    - intros E. by apply helperName_show in E. }
  split; [done|]. split; [|split].
  - subst st'. unfold addContext. fields. rewrite lookup_insert_ne by done.
    apply lookup_insert_eq.
  - subst st'. unfold addContext. fields. apply lookup_insert_eq.
  - intros depth. rewrite (call_helper _ n2) by done. by apply call_show.
Qed.

Lemma helper_shared_by_names_alike_witness :
  let st' := addContext "Éclair" 2 (addContext "éclair" 1 init) in
  helpers st' !! "showÉclair" = Some "Éclair" ∧
  contexts st' !! "éclair" = Some 1%nat.
Proof.
  assert (H1 : helperName "éclair" = helperName "Éclair") by (vm_compute; reflexivity).
  assert (H2 : "éclair" ≠ "Éclair") by discriminate.
  assert (H3 : helpers init !! "show" = None) by (vm_compute; reflexivity).
  assert (E : helperName "éclair" = "showÉclair") by (vm_compute; reflexivity).
  destruct (helper_shared_by_names_alike "éclair" "Éclair" 1 2 init
              VUndefined VUndefined H1 H2 H3) as (H4 & H5 & _).
  rewrite E in H4.
  split; [exact H4|exact H5].
Defined.

(** ** The scroll lock of the built-in context *)

Lemma scroll_locks_app l1 l2 :
  scroll_locks (l1 ++ l2) = scroll_locks l1 + scroll_locks l2.
Proof.
  induction l1 as [|e l1 IH]; [simpl; lia|].
  destruct e; simpl; rewrite ?IH; lia.
Qed.

Lemma all_builtin_step e st :
  all_builtin st → guarded_builtin st e → all_builtin (step e st).
Proof.
  intros Hall [_ Hb].
  destruct e as [c0|name dc|obj data cx|obj rest|d args| |t r|t b|t b].
  3-9: match goal with
       | |- all_builtin (step ?e ?s) =>
         destruct (step_registry e s ltac:(done) ltac:(done)) as (_ & Hs & _);
         unfold all_builtin; rewrite Hs; exact Hall
       end.
  - cbn [step]. intros c ctx H. fields.
    apply lookup_snoc_Some in H as [H|[_ ->]]; [eauto|done].
  - cbn [step]. case_decide as Hlt; [|done]. unfold addContext. intros c ctx. fields.
    destruct (lookup_lt_is_Some_2 _ _ Hlt) as [ctx0 Hctx0]. rewrite Hctx0.
    destruct (decide (dc = c)) as [->|Hne].
    + rewrite list_lookup_insert_eq by done. intros [= <-]. cbn. eauto.
    + rewrite list_lookup_insert_ne by done. eauto.
Qed.

Lemma removeHost_effects c d st :
  effects (removeHost c d st) = effects st ++
    RemoveHost d :: (if dc_builtin_host c
                     then if isOpen st then [] else [UnlockScroll]
                     else []).
Proof.
  unfold removeHost. destruct (dc_builtin_host c); fields; [|done].
  unfold isOpen. fields. destruct (0 <? dialogCount st); fields; [done|].
  by rewrite <- app_assoc.
Qed.

Lemma on_deactivated_effects d args sd c ctx st :
  sessions st !! d = Some sd → context sd = Some c → ctx_store st !! c = Some ctx →
  effects (on_deactivated d args true st) = effects st ++
    RemoveHost d :: (if dc_builtin_host ctx
                     then if 0 <? js_decr (dialogCount st) then [] else [UnlockScroll]
                     else []) ++ [ResolveCall (promise sd) args].
Proof.
  intros Hsd Hc Hctx. unfold on_deactivated. rewrite Hsd, Hc, deref_Some. fields.
  rewrite Hctx.
  assert (E : ∀ s0 : state,
    effects (match owner sd with
             | VObj o => set_dialog_prop (delete o) s0
             | _ => s0
             end) = effects s0) by (intros; by destruct (owner sd)).
  fields. rewrite E, removeHost_effects. unfold isOpen. fields.
  by rewrite <- app_assoc.
Qed.

Lemma step_idle_locks e st :
  (∀ t, e ≠ Activated t true) → (∀ t, e ≠ Deactivated t true) →
  scroll_locks (effects (step e st)) = scroll_locks (effects st).
Proof.
  intros H1 H2.
  destruct e as [c|name dc|obj data ctx|obj rest|d args| |t result|t b|t b];
    cbn [step].
  - done.
  - by case_decide.
  - unfold show, ensureDialogInstance, on_instance. cbn [snd]. destruct obj; fields; done.
  - unfold close, dialog_close. destruct (getDialog obj st); [|done].
    destruct (sessions st !! _); done.
  - unfold dialog_close. destruct (sessions st !! _); done.
  - done.
  - destruct (tasks st !! t) as [[| | |]|]; try done. destruct result; done.
  - destruct b; [by destruct (H1 t)|].
    destruct (tasks st !! t) as [[|dfd instance data dc a| |]|]; try done.
    rewrite on_activated_declined. fields. rewrite scroll_locks_app. simpl. lia.
  - destruct b; [by destruct (H2 t)|].
    destruct (tasks st !! t) as [[| |d args|]|]; try done.
    unfold on_deactivated. fields. by destruct (sessions st !! d).
Qed.

Lemma locks_step e st :
  accounted st → all_builtin st → guarded st e →
  scroll_locks (effects st) = (if isOpen st then 1 else 0) →
  scroll_locks (effects (step e st)) = (if isOpen (step e st) then 1 else 0).
Proof.
  intros Hacc Hall Hg Hl.
  destruct (accounted_step e st Hacc Hg) as [_ Hn].
  pose proof (count_is_size _ Hacc) as Hsz.
  pose proof (count_bounded _ Hacc) as Hbd.
  destruct Hacc as [_ _ Hat].
  assert (Hidle : (∀ t, e ≠ Activated t true) → (∀ t, e ≠ Deactivated t true) →
                  opens st e = false → closes st e = false →
                  scroll_locks (effects (step e st)) = (if isOpen (step e st) then 1 else 0)).
  { intros H1 H2 Ho Hc. rewrite step_idle_locks, Hl by done.
    unfold isOpen. rewrite Hn, Ho, Hc. by replace (dialogCount st + 0 - 0) with (dialogCount st) by lia. }
  assert (Hstay : step e st = st →
                  scroll_locks (effects (step e st)) = (if isOpen (step e st) then 1 else 0)).
  { by intros ->. }
  unfold isOpen in *.
  destruct e as [c0|name dc|obj data cx|obj rest|d args| |t r|t [|]|t [|]];
    try (by apply Hidle).
  - cbn [guarded opens closes step] in *.
    destruct (tasks st !! t) as [[|dfd instance data dc a| |]|] eqn:Et;
      try (by apply Hstay).
    destruct Hg as ((o & -> & Hnone) & Hdc & Hlt).
    destruct Hdc as [ctx Hctx].
    destruct (on_activated_exact dfd (VObj o) dc a (finish t st)
                ltac:(discriminate) ltac:(discriminate)) as (_ & _ & _ & He & _).
    assert (Ed : deref (finish t st) dc = Some ctx) by exact Hctx.
    rewrite Ed in He. rewrite He, Hn.
    assert (Hb : dc_builtin_host ctx = true).
    { destruct dc as [c|]; [|done]. rewrite deref_Some in Hctx. by eapply Hall. }
    rewrite Hb. unfold isOpen. fields.
    rewrite scroll_locks_app, Hl. cbn [scroll_locks].
    rewrite scroll_locks_app.
    destruct (0 <? dialogCount st) eqn:E0.
    + apply Z.ltb_lt in E0.
      assert (E1 : (0 <? dialogCount st + 1 - 0) = true) by (apply Z.ltb_lt; lia).
      rewrite E1. simpl. lia.
    + apply Z.ltb_ge in E0.
      assert (E1 : (0 <? dialogCount st + 1 - 0) = true) by (apply Z.ltb_lt; lia).
      rewrite E1. simpl. lia.
  - cbn [guarded opens closes step] in *.
    destruct (tasks st !! t) as [[| |d args|]|] eqn:Et;
      try (by apply Hstay).
    destruct (sessions st !! d) as [sd|] eqn:Esd.
    + destruct (Hg sd eq_refl) as (o & Hown & Hatt).
      destruct (Hat o d Hatt) as (x & Hx & _ & Hdc).
      rewrite (lookup_idents _ _ _ Esd) in Hx. injection Hx as <-.
      cbn [ident fst snd] in Hdc.
      destruct (context sd) as [c|] eqn:Ec; [|by destruct Hdc].
      destruct Hdc as [ctx Hctx]. change (ctx_store st !! c = Some ctx) in Hctx.
      rewrite (on_deactivated_effects d args sd c ctx (finish t st) Esd Ec Hctx), Hn.
      rewrite (Hall c ctx Hctx). fields.
      assert (Hpos : (0 < size (dialog_prop st))%nat).
      { assert (size (dialog_prop st) ≠ 0%nat); [|lia].
        apply map_size_ne_0_lookup. eauto. }
      assert (Hdec : js_decr (dialogCount st) = dialogCount st - 1)
        by (apply js_decr_exact; unfold max_exact in *; lia).
      rewrite Hdec, scroll_locks_app, Hl. cbn [scroll_locks].
      rewrite scroll_locks_app.
      assert (E0 : (0 <? dialogCount st) = true) by (apply Z.ltb_lt; lia).
      rewrite E0.
      replace (dialogCount st + 0 - 1) with (dialogCount st - 1) by lia.
      destruct (0 <? dialogCount st - 1); simpl; lia.
    + assert (E : on_deactivated d args true (finish t st) = finish t st).
      { unfold on_deactivated. fields. by rewrite Esd. }
      rewrite E. fields. exact Hl.
Qed.

(** With the built-in context alone, and under the conditions of
    [guarded], the document's scrolling is locked exactly while a dialog
    is open: the locks set less the locks released are one when
    [isOpen()] and none otherwise. *)
Theorem scroll_locked_while_open (es : list event) :
  obeys guarded_builtin es init →
  scroll_locks (effects (run es init)) = (if isOpen (run es init) then 1 else 0).
Proof.
  intros Hok.
  assert (H : accounted (run es init) ∧ all_builtin (run es init) ∧
              scroll_locks (effects (run es init))
                = (if isOpen (run es init) then 1 else 0)).
  { revert Hok.
    apply (obeys_invariant guarded_builtin
             (λ s, accounted s ∧ all_builtin s ∧
                   scroll_locks (effects s) = (if isOpen s then 1 else 0))).
    - intros s e (Hacc & Hall & Hl) Hg. split; [|split].
      + apply accounted_step; [done|apply Hg].
      + by apply all_builtin_step.
      + apply locks_step; try done. apply Hg.
    - split; [apply accounted_init|]. split; [|reflexivity].
      intros c ctx H. assert (E : ctx_store init = [mkContext (VStr "default") true false true])
        by reflexivity.
      rewrite E in H. destruct c as [|c]; [by injection H as <-|done]. }
  apply H.
Qed.

Lemma scroll_locked_while_open_witness :
  let es := [Show (VObj 1) VUndefined VUndefined; Activated 0 true;
             Show (VObj 2) (VNum 3) (VStr "default"); Activated 1 true;
             Close (VObj 1) [VStr "done"]; Deactivated 2 true] in
  obeys guarded_builtin es init ∧
  scroll_locks (effects (run es init)) = (if isOpen (run es init) then 1 else 0).
Proof.
  cbv zeta.
  set (es := [Show (VObj 1) VUndefined VUndefined; Activated 0 true;
              Show (VObj 2) (VNum 3) (VStr "default"); Activated 1 true;
              Close (VObj 1) [VStr "done"]; Deactivated 2 true]).
  assert (Hok : obeys guarded_builtin es init).
  { subst es. cbn [obeys].
    split; [split; exact I|].
    split; [split; [|exact I]|split; [split; exact I|
      split; [split; [|exact I]|split; [split; exact I|split; [split; [|exact I]|exact I]]]]].
    - match goal with
      | |- guarded ?s (Activated ?t true) =>
        assert (Et : tasks s !! t = Some (AwaitActivate 0 (VObj 1) VUndefined (Some 0%nat) 0))
          by (vm_compute; reflexivity);
        unfold guarded; rewrite Et
      end.
      split; [|split].
      + exists 1%nat. split; [reflexivity|]. vm_compute. reflexivity.
      + vm_compute. eauto.
      + vm_compute. reflexivity.
    - match goal with
      | |- guarded ?s (Activated ?t true) =>
        assert (Et : tasks s !! t = Some (AwaitActivate 1 (VObj 2) (VNum 3) (Some 0%nat) 1))
          by (vm_compute; reflexivity);
        unfold guarded; rewrite Et
      end.
      split; [|split].
      + exists 2%nat. split; [reflexivity|]. vm_compute. reflexivity.
      + vm_compute. eauto.
      + vm_compute. reflexivity.
    - match goal with
      | |- guarded ?s (Deactivated ?t true) =>
        assert (Et : tasks s !! t = Some (AwaitDeactivate 0 [VStr "done"]))
          by (vm_compute; reflexivity);
        unfold guarded; rewrite Et
      end.
      intros sd H. vm_compute in H. injection H as <-.
      exists 1%nat. split; [reflexivity|]. vm_compute. reflexivity. }
  split; [exact Hok|].
  exact (scroll_locked_while_open es Hok).
Defined.

(** ** Calls that come at the wrong time *)

(** [close] of an owner between [show] and the completion of its
    activation does nothing ([__dialog__] is assigned only at line 210,
    in the callback of the activation): the dialog opens all the same. *)
Theorem close_during_activation_is_ignored (st : state) (o c : nat)
    (ctx : DialogContext) (activationData context : value) (rest : list value) :
  dialog_prop st !! o = None →
  getContext context st = Some c → ctx_store st !! c = Some ctx →
  let t := length (tasks st) in
  let st' := run [Show (VObj o) activationData context; Close (VObj o) rest;
                  Activated t true] st in
  st' = run [Show (VObj o) activationData context; Activated t true] st ∧
  getDialog (VObj o) st' = Some (length (sessions st)).
Proof.
  intros Ho Hg Hctx t st'.
  assert (E : st' = run [Show (VObj o) activationData context; Activated t true] st).
  { unfold st'. rewrite !run_cons.
    assert (E1 : step (Close (VObj o) rest) (step (Show (VObj o) activationData context) st)
                 = step (Show (VObj o) activationData context) st).
    { cbn [step]. unfold close, getDialog. cbn [truthy].
      destruct (step_idle (Show (VObj o) activationData context) st
                  ltac:(done) ltac:(done)) as (_ & Hp & _).
      cbn [step] in Hp. by rewrite Hp, Ho. }
    by rewrite E1. }
  split; [exact E|]. rewrite E.
  destruct (show_succeeds st o c ctx activationData context Hg Hctx)
    as (_ & _ & _ & _ & _ & _ & Hp & _).
  unfold getDialog. cbn [truthy]. fold t in Hp. rewrite Hp. apply lookup_insert_eq.
Qed.

Lemma close_during_activation_is_ignored_witness :
  let st' := run [Show (VObj 1) VUndefined VUndefined; Close (VObj 1) [VStr "no"];
                  Activated 0 true] init in
  st' = run [Show (VObj 1) VUndefined VUndefined; Activated 0 true] init ∧
  getDialog (VObj 1) st' = Some 0%nat.
Proof.
  refine (close_during_activation_is_ignored init 1 0
            (mkContext (VStr "default") true false true)
            VUndefined VUndefined [VStr "no"] _ _ _);
    vm_compute; reflexivity.
Defined.

(** [show] of an owner that has an open dialog already (nothing in
    lines 196-234 looks at [__dialog__] before line 210 overwrites it)
    leaves the earlier dialog without an owner: once the later dialog
    is closed through the owner, the owner has no dialog, a further
    [close] of it does nothing, the earlier promise is pending as it
    was, and the counter still counts the earlier dialog. *)
Theorem show_of_open_owner_orphans_dialog (st : state) (o d c : nat) (sd : Dialog)
    (ctx : DialogContext) (activationData context : value) (args rest : list value) :
  dialog_prop st !! o = Some d →
  sessions st !! d = Some sd →
  deferreds st !! promise sd = Some Pending →
  getContext context st = Some c → ctx_store st !! c = Some ctx →
  0 < dialogCount st < max_exact →
  let t := length (tasks st) in
  let st4 := run [Show (VObj o) activationData context; Activated t true;
                  Close (VObj o) args; Deactivated (S t) true] st in
  getDialog (VObj o) st4 = None ∧
  step (Close (VObj o) rest) st4 = st4 ∧
  sessions st4 !! d = Some sd ∧
  deferreds st4 !! promise sd = Some Pending ∧
  deferreds st4 !! length (deferreds st) = Some (Resolved args) ∧
  dialogCount st4 = dialogCount st ∧
  isOpen st4 = true.
Proof.
  intros Ho Hsd Hp Hg Hctx Hcount t st4.
  set (st2 := run [Show (VObj o) activationData context; Activated t true] st).
  assert (E4 : st4 = run [Close (VObj o) args; Deactivated (length (tasks st2)) true] st2).
  { destruct (show_succeeds st o c ctx activationData context Hg Hctx)
      as (_ & Ht & _). fold t st2 in Ht.
    rewrite Ht, length_app, Nat.add_1_r. reflexivity. }
  destruct (show_succeeds st o c ctx activationData context Hg Hctx)
    as (_ & _ & Hd2 & _ & Hs2 & _ & Hp2 & Hc2 & Hi2 & _).
  fold t st2 in Hd2, Hs2, Hp2, Hc2, Hi2.
  assert (Hlen : length (idents st) = length (sessions st))
    by (unfold idents; apply length_fmap).
  assert (Hnew : idents st2 !! length (sessions st)
                 = Some (VObj o, Some c, activators st, length (deferreds st))).
  { rewrite Hi2, <- Hlen. apply lookup_snoc. }
  unfold idents in Hnew. rewrite list_lookup_fmap in Hnew.
  destruct (sessions st2 !! length (sessions st)) as [sd'|] eqn:Esd'; [|done].
  injection Hnew as Hown Hcx Hact Hpr.
  assert (Hctx2 : ctx_store st2 !! c = Some ctx) by (by rewrite Hs2).
  assert (Hdp : dialog_prop st2 !! o = Some (length (sessions st)))
    by (rewrite Hp2; apply lookup_insert_eq).
  destruct (close_succeeds st2 o (length (sessions st)) c sd' ctx args
              Hdp Esd' Hown Hcx Hctx2)
    as (_ & Hs4 & _ & _ & _ & _ & Hp4 & Hc4 & Hd4 & _).
  rewrite <- E4 in Hs4, Hp4, Hc4, Hd4.
  assert (Hnone : getDialog (VObj o) st4 = None).
  { unfold getDialog. cbn [truthy]. rewrite Hp4. apply lookup_delete_eq. }
  assert (Hold : idents st2 !! d = Some (ident sd)).
  { rewrite Hi2. apply lookup_app_l_Some. by apply lookup_idents. }
  assert (Hsd2 : sessions st2 !! d = Some sd).
  { (* the sessions of [st] are a prefix of those of [st2] *)
    destruct (step_sessions (Activated t true)
                (step (Show (VObj o) activationData context) st))
      as [[Hs _]|(t0 & dfd0 & i0 & da0 & dc0 & a0 & _ & _ & _ & _ & Hs & _)].
    - change (sessions st2 = sessions (step (Show (VObj o) activationData context) st)) in Hs.
      rewrite Hs.
      destruct (step_idle (Show (VObj o) activationData context) st
                  ltac:(done) ltac:(done)) as (_ & _ & Hs'). by rewrite Hs'.
    - change (sessions st2 = sessions (step (Show (VObj o) activationData context) st)
                               ++ [new_session dfd0 i0 dc0 a0
                                     (step (Show (VObj o) activationData context) st)]) in Hs.
      rewrite Hs.
      destruct (step_idle (Show (VObj o) activationData context) st
                  ltac:(done) ltac:(done)) as (_ & _ & Hs'). rewrite Hs'.
      by apply lookup_app_l_Some. }
  assert (Hlt : (promise sd < length (deferreds st))%nat)
    by (by apply lookup_lt_Some in Hp).
  split; [exact Hnone|]. split; [|split; [|split; [|split; [|split]]]].
  - cbn [step]. unfold close. by rewrite Hnone.
  - by rewrite Hs4.
  - rewrite Hd4, Hpr, Hd2, list_lookup_alter_ne by lia.
    by apply lookup_app_l_Some.
  - rewrite Hd4, Hpr, Hd2, list_lookup_alter_eq, lookup_snoc. reflexivity.
  - rewrite Hc4, Hc2, js_incr_exact by (unfold max_exact in *; lia).
    rewrite js_decr_exact by (unfold max_exact in *; lia). lia.
  - unfold isOpen. rewrite Hc4, Hc2, js_incr_exact by (unfold max_exact in *; lia).
    rewrite js_decr_exact by (unfold max_exact in *; lia).
    apply Z.ltb_lt. lia.
Qed.

Lemma show_of_open_owner_orphans_dialog_witness :
  let st := run [Show (VObj 1) VUndefined VUndefined; Activated 0 true] init in
  let st4 := run [Show (VObj 1) (VNum 2) VUndefined; Activated 1 true;
                  Close (VObj 1) [VStr "X"]; Deactivated 2 true] st in
  getDialog (VObj 1) st4 = None ∧
  deferreds st4 !! 0%nat = Some Pending ∧
  deferreds st4 !! 1%nat = Some (Resolved [VStr "X"]) ∧
  isOpen st4 = true.
Proof.
  cbv zeta.
  set (st := run [Show (VObj 1) VUndefined VUndefined; Activated 0 true] init).
  assert (Hsd : sessions st !! 0%nat
                = Some (mkDialog (VObj 1) (Some 0%nat) 0 0
                          (Some (mkSettings (VObj 1) false false true))
                          (Some 1052) (Some 1051)))
    by (vm_compute; reflexivity).
  destruct (show_of_open_owner_orphans_dialog st 1 0 0 _
              (mkContext (VStr "default") true false true)
              (VNum 2) VUndefined [VStr "X"] [] ltac:(vm_compute; reflexivity) Hsd
              ltac:(vm_compute; reflexivity) ltac:(vm_compute; reflexivity)
              ltac:(vm_compute; reflexivity) ltac:(vm_compute; split; reflexivity))
    as (H1 & _ & _ & H2 & H3 & _ & H4).
  vm_compute in H1, H2, H3, H4. vm_compute.
  split; [exact H1|split; [exact H2|split; [exact H3|exact H4]]].
Defined.
